(** * scripts/import_data.py: the FileMaker CSV importer

    A shallow embedding of [scripts/import_data.py] and the properties of
    its text normaliser, its six row importers and its synthetic key
    counter.

    Python values are modelled as follows.
    - [str] is a list of Unicode code points ([pystr]); the code works on
      decoded text ([open(..., encoding='utf-8')]), never on bytes.
    - [int] is [Z]; [None] is the [None] of an [option].
    - A CSV row, as [csv.reader] yields it, is a list of [str].
    - An exception is a value of [exn]; statements live in a small
      state-and-exception monad whose third outcome is [continue]. *)

From Stdlib Require Import ZArith NArith Lia String Ascii Bool.
From stdpp Require Import base tactics option list.

Local Open Scope N_scope.

(** ** Python text *)

Module Text.

Abbreviation pystr := (list N).

(** ASCII literals of the source, as code point lists. *)
Definition lit (s : string) : pystr := map N_of_ascii (list_ascii_of_string s).

Definition PILCROW : N := 182.        (* U+00B6, the FileMaker paragraph mark *)
Definition VT : N := 11.              (* '\x0b' *)
Definition CR : N := 13.              (* '\r' *)
Definition LF : N := 10.              (* '\n' *)
Definition REPLACEMENT : N := 65533.  (* U+FFFD, the replacement character *)
Definition DQUOTE : N := 34.          (* the double quote *)

Definition in_range (lo hi c : N) : bool := (lo <=? c) && (c <=? hi).

(** [Py_UNICODE_ISSPACE]: the code points [str.strip()] removes and
    [str.isspace()] accepts. *)
Definition isspace (c : N) : bool :=
  in_range 9 13 c || in_range 28 32 c || (c =? 133) || (c =? 160)
  || (c =? 5760) || in_range 8192 8202 c || in_range 8232 8233 c
  || (c =? 8239) || (c =? 8287) || (c =? 12288).

(** [s.startswith(p)]. *)
Fixpoint startswith (p s : pystr) : bool :=
  match p, s with
  | [], _ => true
  | _ :: _, [] => false
  | a :: p', b :: s' => (a =? b) && startswith p' s'
  end.

(** The scan of [str.replace(old, new)] for a non-empty [old]: leftmost
    occurrences, never overlapping.  [skip] is the number of characters of
    the occurrence just matched that are still to be dropped. *)
Fixpoint replace_scan (old new : pystr) (skip : nat) (s : pystr) : pystr :=
  match s with
  | [] => []
  | c :: s' =>
      match skip with
      | S k => replace_scan old new k s'
      | O =>
          if startswith old s
          then new ++ replace_scan old new (length old - 1) s'
          else c :: replace_scan old new 0 s'
      end
  end.

(** [s.replace(old, new)]; with an empty [old] Python puts [new] before
    every character and at the end. *)
Definition replace (old new s : pystr) : pystr :=
  match old with
  | [] => new ++ flat_map (fun c => c :: new) s
  | _ :: _ => replace_scan old new 0 s
  end.

(** Drop the leading characters that satisfy [sp]. *)
Fixpoint lstrip_by (sp : N -> bool) (s : pystr) : pystr :=
  match s with
  | [] => []
  | c :: s' => if sp c then lstrip_by sp s' else s
  end.

Definition lstrip : pystr -> pystr := lstrip_by isspace.

Fixpoint rstrip (s : pystr) : pystr :=
  match s with
  | [] => []
  | c :: s' =>
      match rstrip s' with
      | [] => if isspace c then [] else [c]
      | t => c :: t
      end
  end.

(** [s.strip()]. *)
Definition strip (s : pystr) : pystr := rstrip (lstrip s).

(** Truth value of a [str]: only the empty string is false. *)
Definition truthy (s : pystr) : bool :=
  match s with [] => false | _ :: _ => true end.

(** [clean_text(text)], lines 19-33.  The argument is a [str] or [None]. *)
Definition clean_text (text : option pystr) : option pystr :=
  match text with
  | None => None
  | Some text =>
      if negb (truthy text) then None
      else
        let text := replace [PILCROW] [LF] text in
        let text := replace [VT] [LF] text in
        let text := replace [CR; LF] [LF] text in
        let text := replace [CR] [LF] text in
        let text := replace [REPLACEMENT] [DQUOTE] text in
        let text := strip text in
        if truthy text then Some text else None
  end.

(** The text [clean_text] holds after its five replacements, before the
    strip. *)
Definition replaced (text : pystr) : pystr :=
  replace [REPLACEMENT] [DQUOTE]
    (replace [CR] [LF]
       (replace [CR; LF] [LF]
          (replace [VT] [LF] (replace [PILCROW] [LF] text)))).

(** A character none of the replacements looks for. *)
Definition plain (c : N) : Prop :=
  c <> PILCROW /\ c <> VT /\ c <> CR /\ c <> REPLACEMENT.

End Text.

(** ** Python integers from text *)

Module PyInt.
Import Text.

(** Exceptions the importers can meet.  [ValueError] is raised by [int()]
    and carries the offending argument, which its message quotes;
    [OverflowError] is raised by [sqlite3] when an integer parameter does
    not fit SQLite's 64-bit INTEGER; [IndexError] by an index past the end
    of a row. *)
Inductive exn : Type :=
| ValueError (arg : pystr)
| OverflowError
| IndexError.

(** The decimal digits of Unicode 14.0 (the tables of CPython 3.11) come
    in runs of ten consecutive code points; these are the zeros of the
    runs. *)
Definition decimal_zeros : list N :=
  [
   48; 1632; 1776; 1984; 2406; 2534; 2662; 2790; 2918; 3046; 3174;
   3302; 3430; 3558; 3664; 3792; 3872; 4160; 4240; 6112; 6160; 6470;
   6608; 6784; 6800; 6992; 7088; 7232; 7248; 42528; 43216; 43264;
   43472; 43504; 43600; 44016; 65296; 66720; 68912; 69734; 69872;
   69942; 70096; 70384; 70736; 70864; 71248; 71360; 71472; 71904;
   72016; 72784; 73040; 73120; 92768; 92864; 93008; 120782; 120792;
   120802; 120812; 120822; 123200; 123632; 125264; 130032
  ].

(** [Py_UNICODE_TODECIMAL]. *)
Definition to_decimal (c : N) : option N :=
  match find (fun z => in_range z (z + 9) c) decimal_zeros with
  | Some z => Some (c - z)
  | None => None
  end.

(** Code points with a digit value ([Py_UNICODE_ISDIGIT]): the decimal
    digits and the superscript, subscript, circled and similar digits. *)
Definition digit_ranges : list (N * N) :=
  [
   (48, 57); (178, 179); (185, 185); (1632, 1641); (1776, 1785);
   (1984, 1993); (2406, 2415); (2534, 2543); (2662, 2671);
   (2790, 2799); (2918, 2927); (3046, 3055); (3174, 3183);
   (3302, 3311); (3430, 3439); (3558, 3567); (3664, 3673);
   (3792, 3801); (3872, 3881); (4160, 4169); (4240, 4249);
   (4969, 4977); (6112, 6121); (6160, 6169); (6470, 6479);
   (6608, 6618); (6784, 6793); (6800, 6809); (6992, 7001);
   (7088, 7097); (7232, 7241); (7248, 7257); (8304, 8304);
   (8308, 8313); (8320, 8329); (9312, 9320); (9332, 9340);
   (9352, 9360); (9450, 9450); (9461, 9469); (9471, 9471);
   (10102, 10110); (10112, 10120); (10122, 10130); (42528, 42537);
   (43216, 43225); (43264, 43273); (43472, 43481); (43504, 43513);
   (43600, 43609); (44016, 44025); (65296, 65305); (66720, 66729);
   (68160, 68163); (68912, 68921); (69216, 69224); (69714, 69722);
   (69734, 69743); (69872, 69881); (69942, 69951); (70096, 70105);
   (70384, 70393); (70736, 70745); (70864, 70873); (71248, 71257);
   (71360, 71369); (71472, 71481); (71904, 71913); (72016, 72025);
   (72784, 72793); (73040, 73049); (73120, 73129); (92768, 92777);
   (92864, 92873); (93008, 93017); (120782, 120831); (123200, 123209);
   (123632, 123641); (125264, 125273); (127232, 127242);
   (130032, 130041)
  ].

Definition isdigit_char (c : N) : bool :=
  existsb (fun r => in_range (fst r) (snd r) c) digit_ranges.

(** [s.isdigit()]: non-empty and every character a digit. *)
Definition isdigit (s : pystr) : bool := truthy s && forallb isdigit_char s.

(** [Py_ISSPACE], the ASCII white space [PyLong_FromString] skips. *)
Definition ascii_space (c : N) : bool := in_range 9 13 c || (c =? 32).

(** [_PyUnicode_TransformDecimalAndSpaceToASCII]: the conversion stops at
    the first character that is neither ASCII, white space nor a decimal
    digit, which it turns into a question mark. *)
Fixpoint to_ascii (s : pystr) : pystr :=
  match s with
  | [] => []
  | c :: s' =>
      if c <? 127 then c :: to_ascii s'
      else if isspace c then 32 :: to_ascii s'
      else match to_decimal c with
           | Some d => (48 + d) :: to_ascii s'
           | None => [63]
           end
  end.

Definition skip_space : pystr -> pystr := lstrip_by ascii_space.

(** The digit scan of [long_from_string_base] in base ten.  It runs over
    digits and underscores and fails on two underscores in a row;
    [underscore] tells whether the previous character was one, [acc] is
    the value and [n] the number of digits so far.  It returns them with
    the rest of the text. *)
Fixpoint scan_digits (underscore : bool) (acc : Z) (n : nat) (s : pystr)
  : option (bool * Z * nat * pystr) :=
  match s with
  | [] => Some (underscore, acc, n, [])
  | c :: s' =>
      if c =? 95 then
        if underscore then None else scan_digits true acc n s'
      else if in_range 48 57 c then
        scan_digits false (10 * acc + Z.of_N (c - 48))%Z (S n) s'
      else Some (underscore, acc, n, s)
  end.

(** [sys.get_int_max_str_digits()], at its default. *)
Definition int_max_str_digits : nat := 4300.

(** [PyLong_FromString(text, base=10)]: white space, an optional sign,
    digits with single underscores between them, white space, end. *)
Definition long_from_string (s : pystr) : option Z :=
  let s := skip_space s in
  let '(sign, s) :=
    match s with
    | 43 :: s' => (1%Z, s')
    | 45 :: s' => ((-1)%Z, s')
    | _ => (1%Z, s)
    end in
  match s with
  | 95 :: _ => None
  | _ =>
      match scan_digits false 0 0 s with
      | None => None
      | Some (underscore, acc, n, rest) =>
          if underscore then None
          else if (n =? 0)%nat then None
          else if (int_max_str_digits <? n)%nat then None
          else match skip_space rest with
               | [] => Some (sign * acc)%Z
               | _ :: _ => None
               end
      end
  end.

(** [int(s)] for a [str] argument, as a partial function. *)
Definition parse_int (s : pystr) : option Z :=
  long_from_string (if forallb (fun c => c <? 128) s then s else to_ascii s).

(** [int(s)]: the value, or the [ValueError] raised. *)
Definition int (s : pystr) : exn + Z :=
  match parse_int s with
  | Some n => inr n
  | None => inl (ValueError s)
  end.

End PyInt.

Import Text PyInt.

(** ** The relational store *)

Module Store.

(** Modelled from the spec: [schema.sql] and the SQLite engine are not
    part of the importer.  A table is the sequence of its rows in
    insertion order; every row has an integer identity, the key of its
    table, and [INSERT OR IGNORE] leaves the table as it is when a row of
    the same identity is present and appends the new row otherwise.  A
    table is a list, not a map, so that a second row of one identity is
    representable and its absence is something to prove. *)
Class Keyed (R : Type) : Type := {
  key : R -> Z;            (* the identity column *)
  int_params : R -> list Z (* the integers bound to the statement *)
}.

Definition has_key {R} `{Keyed R} (k : Z) (t : list R) : bool :=
  existsb (fun r => (key r =? k)%Z) t.

Definition insert_or_ignore {R} `{Keyed R} (r : R) (t : list R) : list R :=
  if has_key (key r) t then t else t ++ [r].

(** The rows of identity [k]. *)
Definition select {R} `{Keyed R} (k : Z) (t : list R) : list R :=
  List.filter (fun r => (key r =? k)%Z) t.

(** [sqlite3] binds a Python [int] only if it fits a signed 64-bit
    integer, and raises [OverflowError] otherwise. *)
Definition sqlite_int (n : Z) : bool :=
  ((- 2 ^ 63 <=? n) && (n <? 2 ^ 63))%Z.

End Store.

(** ** The parameter tuples of the six [INSERT] statements *)

Module Item.
Record t : Type := mk {
  item_id : Z; word : pystr; type : pystr;
  definition : option pystr; derivation : option pystr;
  appendicies : option pystr;
  source : option pystr; source_pg : option pystr; mark : option pystr;
  modified_at : pystr
}.
End Item.

Module Link.
Record t : Type := mk {
  link_id : Z; source_item_id : Z; destination_item_id : Z;
  link_type : pystr
}.
End Link.

Module Cliche.
Record t : Type := mk {
  cliche_id : Z; phrase : pystr; definition : option pystr
}.
End Cliche.

Module Name.
Record t : Type := mk {
  name_id : Z; name : pystr; type : option pystr; gender : option pystr;
  description : option pystr; notes : option pystr
}.
End Name.

Module Term.
Record t : Type := mk {
  term_id : Z; term : pystr; type : option pystr;
  definition : option pystr; examples : option pystr; notes : option pystr
}.
End Term.

Module Source.
Record t : Type := mk {
  source_id : Z; title : pystr; author : option pystr; notes : option pystr
}.
End Source.

Import Store.

#[export] Instance item_keyed : Keyed Item.t :=
  {| key := Item.item_id; int_params r := [Item.item_id r] |}.
#[export] Instance link_keyed : Keyed Link.t :=
  {| key := Link.link_id;
     int_params r :=
       [Link.link_id r; Link.source_item_id r; Link.destination_item_id r] |}.
#[export] Instance cliche_keyed : Keyed Cliche.t :=
  {| key := Cliche.cliche_id; int_params r := [Cliche.cliche_id r] |}.
#[export] Instance name_keyed : Keyed Name.t :=
  {| key := Name.name_id; int_params r := [Name.name_id r] |}.
#[export] Instance term_keyed : Keyed Term.t :=
  {| key := Term.term_id; int_params r := [Term.term_id r] |}.
#[export] Instance source_keyed : Keyed Source.t :=
  {| key := Source.source_id; int_params r := [Source.source_id r] |}.

(** ** Statements *)

Inductive kind : Type := Items | Links | Cliches | Names | Terms | Sources.

(** The lines an importer prints inside its loop. *)
Inductive line : Type :=
| SkippingColumns (n : nat)     (* Skipping row with insufficient columns: n *)
| SkippingMissingID             (* Skipping row with missing ID *)
| ErrorImporting (k : kind) (e : exn)  (* Error importing item: e *)
| RowData (fields : list pystr)        (* Row data: row[:3]... *)
| SkippingInvalidID (r : list pystr).  (* Skipping row with invalid ID: row *)

(** The variables an import function changes: the table it writes, its
    counters, and what it has printed.  [executed] is the history of the
    [INSERT] statements run, by parameter tuple; [errors] is called
    [skipped] in [import_links]; [source_id] is a variable of
    [import_sources] alone. *)
Record state (R : Type) : Type := State {
  table : list R;
  executed : list R;
  count : Z;
  errors : Z;
  source_id : Z;
  stdout : list line
}.
Arguments State {R}.
Arguments table {R}.
Arguments executed {R}.
Arguments count {R}.
Arguments errors {R}.
Arguments source_id {R}.
Arguments stdout {R}.

(** How a statement ends: normally with a value, by [continue], or by an
    exception. *)
Inductive outcome (A : Type) : Type :=
| Next (a : A)
| Continue
| Raise (e : exn).
Arguments Next {A}.
Arguments Continue {A}.
Arguments Raise {A}.

Definition stmt (R A : Type) : Type := state R -> outcome A * state R.

Definition ret {R A} (a : A) : stmt R A := fun st => (Next a, st).

Definition bind {R A B} (m : stmt R A) (k : A -> stmt R B) : stmt R B :=
  fun st =>
    match m st with
    | (Next a, st') => k a st'
    | (Continue, st') => (Continue, st')
    | (Raise e, st') => (Raise e, st')
    end.

Declare Scope stmt_scope.
Delimit Scope stmt_scope with stmt.
Notation "x <- m ;; k" := (bind m (fun x => k))
  (at level 100, m at next level, k at level 200, right associativity)
  : stmt_scope.
Notation "m ;; k" := (bind m (fun _ => k))
  (at level 100, k at level 200, right associativity) : stmt_scope.
Local Open Scope stmt_scope.

Section Statements.
Context {R : Type}.

Definition continue {A} : stmt R A := fun st => (Continue, st).
Definition raise {A} (e : exn) : stmt R A := fun st => (Raise e, st).

(** An expression that may raise. *)
Definition eval {A} (v : exn + A) : stmt R A :=
  match v with inl e => raise e | inr a => ret a end.

Definition print (l : line) : stmt R unit := fun st =>
  (Next tt, State (table st) (executed st) (count st) (errors st)
              (source_id st) (stdout st ++ [l])).

(** [errors += 1] *)
Definition errors_incr : stmt R unit := fun st =>
  (Next tt, State (table st) (executed st) (count st) (errors st + 1)%Z
              (source_id st) (stdout st)).

(** [count += 1] *)
Definition count_incr : stmt R unit := fun st =>
  (Next tt, State (table st) (executed st) (count st + 1)%Z (errors st)
              (source_id st) (stdout st)).

(** [source_id += 1] *)
Definition source_id_incr : stmt R unit := fun st =>
  (Next tt, State (table st) (executed st) (count st) (errors st)
              (source_id st + 1)%Z (stdout st)).

Definition get_errors : stmt R Z := fun st => (Next (errors st), st).
Definition get_source_id : stmt R Z := fun st => (Next (source_id st), st).

(** [cursor.execute(INSERT OR IGNORE ..., r)] *)
Definition execute `{Keyed R} (r : R) : stmt R unit := fun st =>
  if forallb sqlite_int (int_params r)
  then (Next tt, State (insert_or_ignore r (table st)) (executed st ++ [r])
                   (count st) (errors st) (source_id st) (stdout st))
  else (Raise OverflowError, st).

(** [try: body  except Exception as e: handler] *)
Definition try_except {A} (body : stmt R A) (handler : exn -> stmt R A)
  : stmt R A :=
  fun st =>
    match body st with
    | (Raise e, st') => handler e st'
    | r => r
    end.

(** [try: body  except ValueError: handler] *)
Definition try_except_ValueError {A} (body : stmt R A) (handler : stmt R A)
  : stmt R A :=
  fun st =>
    match body st with
    | (Raise (ValueError _), st') => handler st'
    | r => r
    end.

(** [for x in xs: body]: [continue] goes on to the next element, an
    exception leaves the loop. *)
Fixpoint for_ {X} (xs : list X) (body : X -> stmt R unit) : stmt R unit :=
  match xs with
  | [] => ret tt
  | x :: xs' => fun st =>
      match body x st with
      | (Raise e, st') => (Raise e, st')
      | (_, st') => for_ xs' body st'
      end
  end.

End Statements.

(** ** Rows *)

Abbreviation row := (list pystr).

(** [row[i]] *)
Definition index (r : row) (i : nat) : exn + pystr :=
  match r !! i with
  | Some f => inr f
  | None => inl IndexError
  end.

(** [int(row[i]) if row[i] else None] *)
Definition int_or_None (r : row) (i : nat) : exn + option Z :=
  match index r i with
  | inl e => inl e
  | inr f =>
      if truthy f
      then match int f with inl e => inl e | inr n => inr (Some n) end
      else inr None
  end.

(** [row[i] if len(row) > i else d] *)
Definition field_or (r : row) (i : nat) (d : pystr) : pystr :=
  match r !! i with Some f => f | None => d end.

(** [clean_text(row[i]) if len(row) > i else None] *)
Definition cleaned (r : row) (i : nat) : option pystr :=
  match r !! i with Some f => clean_text (Some f) | None => None end.

(** ** The six importers

    Each import function is modelled from the point where its file is
    open: its argument [rows] is what [csv.reader] yields, and its result
    is the state after the loop, which [conn.commit()] makes durable.  The
    lines printed before and after the loop (the heading, the file that
    is not found, the totals) are not part of [stdout]. *)

(** The state an import function starts its loop in: [count = 0],
    [errors = 0], nothing printed by the loop yet, writing to table [t]. *)
Definition start {R} (t : list R) (first_id : Z) : state R :=
  State t [] 0 0 first_id [].

(** *** [import_items], lines 55-108.  [now] is what
    [datetime.now().isoformat()] returns while the row is processed. *)
Definition import_items_row (now : pystr) (r : row) : stmt Item.t unit :=
  try_except
    (if (length r <? 10)%nat then
       print (SkippingColumns (length r));; errors_incr;; continue
     else
       item_id <- eval (int_or_None r 0);;
       match item_id with
       | None | Some 0%Z =>
           print SkippingMissingID;; errors_incr;; continue
       | Some item_id =>
           execute
             (Item.mk item_id
                (field_or r 1 (lit ""))
                (field_or r 2 (lit "Reference"))
                (cleaned r 3) (cleaned r 4) (cleaned r 5)
                (r !! 6%nat) (r !! 7%nat) (r !! 8%nat)
                (field_or r 9 now));;
           count_incr
       end)
    (fun e =>
       print (ErrorImporting Items e);;
       errors_incr;;
       errors <- get_errors;;
       if (errors <? 5)%Z then print (RowData (take 3 r)) else ret tt).

(** [clock i] is the reading of the clock during row [i]. *)
Definition import_items (clock : nat -> pystr) (rows : list row)
    (t : list Item.t) : state Item.t :=
  snd (for_ (imap (fun i r => (clock i, r)) rows)
         (fun x => import_items_row (fst x) (snd x))
         (start t 0)).

(** *** [import_links], lines 110-154 *)
Definition import_links_row (r : row) : stmt Link.t unit :=
  try_except
    (if (length r <? 3)%nat then errors_incr;; continue
     else
       link_id <- eval (int_or_None r 0);;
       source_id <- eval (int_or_None r 1);;
       dest_id <- eval (int_or_None r 2);;
       match link_id, source_id, dest_id with
       | Some link_id, Some source_id, Some dest_id =>
           if negb (link_id =? 0)%Z && negb (source_id =? 0)%Z
              && negb (dest_id =? 0)%Z
           then
             execute (Link.mk link_id source_id dest_id (lit "related"));;
             count_incr
           else errors_incr
       | _, _, _ => errors_incr
       end)
    (fun e => print (ErrorImporting Links e);; errors_incr).

Definition import_links (rows : list row) (t : list Link.t)
  : state Link.t :=
  snd (for_ rows import_links_row (start t 0)).

(** *** [import_cliches], lines 156-196 *)
Definition import_cliches_row (r : row) : stmt Cliche.t unit :=
  try_except
    (if (length r <? 2)%nat then errors_incr;; continue
     else
       cliche_id <- eval (int_or_None r 0);;
       match cliche_id with
       | None | Some 0%Z => errors_incr;; continue
       | Some cliche_id =>
           execute
             (Cliche.mk cliche_id (field_or r 1 (lit "")) (cleaned r 2));;
           count_incr
       end)
    (fun e => print (ErrorImporting Cliches e);; errors_incr).

Definition import_cliches (rows : list row) (t : list Cliche.t)
  : state Cliche.t :=
  snd (for_ rows import_cliches_row (start t 0)).

(** *** [import_names], lines 198-266 *)
Definition import_names_row (r : row) : stmt Name.t unit :=
  try_except
    (if (length r <? 2)%nat then errors_incr;; continue
     else
       name_id <-
         try_except_ValueError
           (eval (int_or_None r 0))
           (* the old format: [empty, name, id, type] *)
           (match r !! 2%nat with
            | Some f =>
                if isdigit f
                then (n <- eval (int f);; ret (Some n))
                else
                  print (SkippingInvalidID r);; errors_incr;; continue
            | None => print (SkippingInvalidID r);; errors_incr;; continue
            end);;
       match name_id with
       | None | Some 0%Z => errors_incr;; continue
       | Some name_id =>
           let name := field_or r 1 (lit "") in
           let type_val := r !! 2%nat in
           let gender_val := r !! 3%nat in
           execute (Name.mk name_id name type_val gender_val None None);;
           count_incr
       end)
    (fun e => print (ErrorImporting Names e);; errors_incr).

Definition import_names (rows : list row) (t : list Name.t)
  : state Name.t :=
  snd (for_ rows import_names_row (start t 0)).

(** *** [import_literary_terms], lines 268-311 *)
Definition import_literary_terms_row (r : row) : stmt Term.t unit :=
  try_except
    (if (length r <? 2)%nat then errors_incr;; continue
     else
       term_id <- eval (int_or_None r 0);;
       match term_id with
       | None | Some 0%Z => errors_incr;; continue
       | Some term_id =>
           execute
             (Term.mk term_id (field_or r 1 (lit "")) None
                (cleaned r 2) (cleaned r 3) (cleaned r 4));;
           count_incr
       end)
    (fun e => print (ErrorImporting Terms e);; errors_incr).

Definition import_literary_terms (rows : list row) (t : list Term.t)
  : state Term.t :=
  snd (for_ rows import_literary_terms_row (start t 0)).

(** *** [import_sources], lines 313-359 *)
Definition source_title (r : row) : pystr :=
  match r !! 2%nat with
  | Some f => f
  | None => field_or r 1 (lit "")
  end.

Definition import_sources_row (r : row) : stmt Source.t unit :=
  try_except
    (if (length r <? 2)%nat then errors_incr;; continue
     else
       let title := source_title r in
       f <- eval (index r 0);;
       let author := if truthy f then Some f else None in
       if negb (truthy title) then errors_incr;; continue
       else
         source_id <- get_source_id;;
         execute (Source.mk source_id title author (r !! 1%nat));;
         source_id_incr;;
         count_incr)
    (fun e => print (ErrorImporting Sources e);; errors_incr).

Definition import_sources (rows : list row) (t : list Source.t)
  : state Source.t :=
  snd (for_ rows import_sources_row (start t 1000)).

(** ** Observations on a run *)

(** The row was counted as a rejection and nothing was inserted. *)
Definition rejected {R} (st st' : state R) : Prop :=
  table st' = table st /\ executed st' = executed st /\
  count st' = count st /\ errors st' = (errors st + 1)%Z /\
  source_id st' = source_id st.

(** The row was counted as accepted and one [INSERT OR IGNORE] of the
    tuple [r] was run for it, nothing being printed. *)
Definition accepted_as {R} `{Keyed R} (r : R) (st st' : state R) : Prop :=
  table st' = insert_or_ignore r (table st) /\
  executed st' = executed st ++ [r] /\
  count st' = (count st + 1)%Z /\ errors st' = errors st /\
  stdout st' = stdout st.

(** The usable identity in field [i]: what [int(row[i]) if row[i] else
    None] evaluates to, when that is an integer other than zero. *)
Definition identity (r : row) (i : nat) : option Z :=
  match int_or_None r i with
  | inr (Some n) => if (n =? 0)%Z then None else Some n
  | _ => None
  end.

(** The identity [import_names] settles on: the first field, or, when
    [int] raised [ValueError] on it, the third field if it is all digits. *)
Definition name_identity (r : row) : option Z :=
  match int_or_None r 0 with
  | inr (Some n) => if (n =? 0)%Z then None else Some n
  | inl (ValueError _) =>
      match r !! 2%nat with
      | Some f =>
          if isdigit f
          then match parse_int f with
               | Some n => if (n =? 0)%Z then None else Some n
               | None => None
               end
          else None
      | None => None
      end
  | _ => None
  end.

(** What each row body amounts to: the tuple it inserts, if it inserts. *)
Definition item_of_row (now : pystr) (r : row) : option Item.t :=
  if (length r <? 10)%nat then None
  else match identity r 0 with
       | Some n =>
           if sqlite_int n
           then Some (Item.mk n (field_or r 1 (lit ""))
                        (field_or r 2 (lit "Reference"))
                        (cleaned r 3) (cleaned r 4) (cleaned r 5)
                        (r !! 6%nat) (r !! 7%nat) (r !! 8%nat)
                        (field_or r 9 now))
           else None
       | None => None
       end.

Definition link_of_row (r : row) : option Link.t :=
  if (length r <? 3)%nat then None
  else match int_or_None r 0, int_or_None r 1, int_or_None r 2 with
       | inr (Some a), inr (Some b), inr (Some c) =>
           if negb (a =? 0)%Z && negb (b =? 0)%Z && negb (c =? 0)%Z
           then if forallb sqlite_int [a; b; c]
                then Some (Link.mk a b c (lit "related"))
                else None
           else None
       | _, _, _ => None
       end.

Definition cliche_of_row (r : row) : option Cliche.t :=
  if (length r <? 2)%nat then None
  else match identity r 0 with
       | Some n =>
           if sqlite_int n
           then Some (Cliche.mk n (field_or r 1 (lit "")) (cleaned r 2))
           else None
       | None => None
       end.

Definition name_of_row (r : row) : option Name.t :=
  if (length r <? 2)%nat then None
  else match name_identity r with
       | Some n =>
           if sqlite_int n
           then Some (Name.mk n (field_or r 1 (lit "")) (r !! 2%nat)
                        (r !! 3%nat) None None)
           else None
       | None => None
       end.

Definition term_of_row (r : row) : option Term.t :=
  if (length r <? 2)%nat then None
  else match identity r 0 with
       | Some n =>
           if sqlite_int n
           then Some (Term.mk n (field_or r 1 (lit "")) None
                        (cleaned r 2) (cleaned r 3) (cleaned r 4))
           else None
       | None => None
       end.

Definition source_of_row (id : Z) (r : row) : option Source.t :=
  if (length r <? 2)%nat then None
  else if negb (truthy (source_title r)) then None
  else if sqlite_int id
  then Some (Source.mk id (source_title r)
               (match r !! 0%nat with
                | Some f => if truthy f then Some f else None
                | None => None
                end)
               (r !! 1%nat))
  else None.

(** The table is the initial one with the executed statements applied;
    every executed statement was counted; every row was counted once. *)
Definition replayed {R} `{Keyed R} (t0 : list R) (n : nat) (st : state R)
  : Prop :=
  table st = foldl (fun t r => insert_or_ignore r t) t0 (executed st) /\
  count st = Z.of_nat (length (executed st)) /\
  (count st + errors st = Z.of_nat n)%Z.

(** A loop body that never lets an exception out and either accepts or
    rejects its row. *)
Definition settles {R X} `{Keyed R} (body : X -> stmt R unit) : Prop :=
  forall x st, exists o st',
    body x st = (o, st') /\ (forall e, o <> Raise e) /\
    ((exists r, accepted_as r st st') \/ rejected st st').

(** The identities [first], [first + 1], ..., [first + n - 1]. *)
Definition issued (first : Z) (n : nat) : list Z :=
  (fun i => (first + Z.of_nat i)%Z) <$> seq 0 n.

(** A Source row with at least two fields and a non-empty title. *)
Definition titled (r : row) : Prop :=
  (2 <= length r)%nat /\ source_title r <> [].

(** The statement [m], run in [st], lets no exception out and does what
    [d] says: it accepts the row with the tuple [d] holds, or rejects it. *)
Definition decides {R} `{Keyed R} (m : stmt R unit) (st : state R)
    (d : option R) : Prop :=
  exists o st', m st = (o, st') /\ (forall e, o <> Raise e) /\
    match d with
    | Some x => accepted_as x st st'
    | None => rejected st st'
    end.


(** The rows for which [import_names] prints the invalid-ID line. *)
Definition prints_invalid_id (r : row) : bool :=
  (2 <=? length r)%nat &&
  match int_or_None r 0 with
  | inl (ValueError _) =>
      match r !! 2%nat with
      | Some f => negb (isdigit f)
      | None => true
      end
  | _ => false
  end.

(** Lines that print a row or a part of one. *)
Definition shows_row (l : line) : bool :=
  match l with
  | RowData _ | SkippingInvalidID _ => true
  | _ => false
  end.

Definition row_lines (out : list line) : nat :=
  length (List.filter shows_row out).

(** ** Further observations *)

(** A character that is white space once the paragraph marks are line
    breaks. *)
Definition blank (c : N) : Prop := isspace c = true \/ c = PILCROW.

(** An optional text as [clean_text] leaves it: absent, or not empty,
    free of the characters the replacements look for, and stripped. *)
Definition tidy (o : option pystr) : Prop :=
  match o with
  | None => True
  | Some s => s <> [] /\ Forall plain s /\ strip s = s
  end.

(** Two states that differ at most in the table. *)
Definition same_outcome {R} (st1 st2 : state R) : Prop :=
  executed st1 = executed st2 /\ count st1 = count st2 /\
  errors st1 = errors st2 /\ source_id st1 = source_id st2 /\
  stdout st1 = stdout st2.

(** The printed lines other than those that show a row. *)
Definition report_lines (out : list line) : nat :=
  length (List.filter (fun l => negb (shows_row l)) out).

(** The table [t0] has only grown into that of [st]: its rows are still
    there, in place and unchanged; every further row comes from an
    executed statement, and there are at most [count] of them. *)
Definition grown {R} (t0 : list R) (st : state R) : Prop :=
  t0 `prefix_of` table st /\
  (forall x, x ∈ table st -> x ∈ t0 \/ x ∈ executed st) /\
  (Z.of_nat (length (table st)) <= Z.of_nat (length t0) + count st)%Z.


(** The state [st] reached from the table [t0] over the input [xs], of
    which [dec] gives the tuple of each accepted element: the statements
    executed are those of the accepted elements, in the order of the
    input, each counted in [count]; the table has one row per identity;
    the rows of an identity are the first of that identity among the
    rows of [t0] followed by the accepted elements; and of two accepted
    elements of one identity that is new to the table, the first of
    which is the first accepted element of that identity, the table
    holds the tuple of the first, both being counted. *)
Definition first_kept {R X} `{Keyed R} (dec : X -> option R) (xs : list X)
    (t0 : list R) (st : state R) : Prop :=
  executed st = omap dec xs /\
  count st = Z.of_nat (length (omap dec xs)) /\
  NoDup (key <$> table st) /\
  (forall k, select k (table st)
             = take 1 (select k t0 ++ select k (omap dec xs))) /\
  (forall pre x1 mid x2 post a b,
     xs = pre ++ x1 :: mid ++ x2 :: post ->
     dec x1 = Some a -> dec x2 = Some b -> key a = key b ->
     key a ∉ key <$> t0 ->
     (forall x c, x ∈ pre -> dec x = Some c -> key c <> key a) ->
     select (key a) (table st) = [a] /\
     count st = Z.of_nat (length (omap dec pre) + 1
                          + length (omap dec mid) + 1
                          + length (omap dec post))).

(** [titled], as a test. *)
Definition titled_b (r : row) : bool :=
  (2 <=? length r)%nat && truthy (source_title r).

(** The Source rows with two fields or more and a title, each with the
    key [import_sources] has reached when it comes to it: 1000 for the
    first, 1001 for the second, and so on. *)
Definition keyed_sources (rows : list row) : list (Z * row) :=
  imap (fun i r => ((1000 + Z.of_nat i)%Z, r)) (List.filter titled_b rows).

(** Every accepted row is stored exactly when no identity repeats among
    the rows of [t0] and the executed statements; then the table has
    grown by [count] rows, and otherwise by fewer. *)
Definition stored_unless_repeated {R} `{Keyed R} (t0 : list R)
    (st : state R) : Prop :=
  (table st = t0 ++ executed st <-> NoDup (key <$> (t0 ++ executed st))) /\
  (NoDup (key <$> (t0 ++ executed st)) ->
   Z.of_nat (length (table st)) = (Z.of_nat (length t0) + count st)%Z) /\
  (~ NoDup (key <$> (t0 ++ executed st)) ->
   (Z.of_nat (length (table st)) < Z.of_nat (length t0) + count st)%Z).

(** * Properties *)

(** ** The text normaliser *)

Section TextFacts.

Lemma lstrip_by_fixed sp s :
  match s with [] => True | c :: _ => sp c = false end ->
  lstrip_by sp s = s.
Proof. destruct s as [|c s]; simpl; [done|]. by intros ->. Qed.

Lemma lstrip_by_head sp s :
  match lstrip_by sp s with [] => True | c :: _ => sp c = false end.
Proof.
  induction s as [|c s IH]; simpl; [done|].
  destruct (sp c) eqn:E; [done|]. by simpl.
Qed.

Lemma rstrip_idemp s : rstrip (rstrip s) = rstrip s.
Proof.
  induction s as [|c s IH]; simpl; [done|].
  destruct (rstrip s) as [|d t] eqn:E.
  - destruct (isspace c) eqn:Ec; simpl; [done|]. by rewrite Ec.
  - change (rstrip (c :: d :: t)) with
      (match rstrip (d :: t) with
       | [] => if isspace c then [] else [c]
       | u => c :: u
       end).
    by rewrite IH.
Qed.

Lemma rstrip_head s :
  match s with [] => True | c :: _ => isspace c = false end ->
  match rstrip s with [] => True | c :: _ => isspace c = false end.
Proof.
  destruct s as [|c s]; simpl; [done|]. intros Hc.
  destruct (rstrip s); by rewrite ?Hc.
Qed.

Lemma strip_idemp s : strip (strip s) = strip s.
Proof.
  unfold strip, lstrip.
  rewrite (lstrip_by_fixed isspace (rstrip _)).
  - apply rstrip_idemp.
  - apply rstrip_head, lstrip_by_head.
Qed.

Lemma lstrip_by_Forall (P : N -> Prop) sp s :
  Forall P s -> Forall P (lstrip_by sp s).
Proof.
  induction 1 as [|c s Hc Hs IH]; simpl; [constructor|].
  destruct (sp c); [done|by constructor].
Qed.

Lemma rstrip_Forall (P : N -> Prop) s : Forall P s -> Forall P (rstrip s).
Proof.
  induction 1 as [|c s Hc Hs IH]; simpl; [constructor|].
  destruct (rstrip s) as [|d t].
  - destruct (isspace c); [constructor|]. by apply Forall_cons.
  - by apply Forall_cons.
Qed.

Lemma strip_Forall (P : N -> Prop) s : Forall P s -> Forall P (strip s).
Proof. intros. by apply rstrip_Forall, lstrip_by_Forall. Qed.

(** Replacing keeps whatever holds of all characters of the text and of
    the replacement. *)
Lemma replace_scan_Forall (P : N -> Prop) old new s k :
  Forall P new -> Forall P s -> Forall P (replace_scan old new k s).
Proof.
  intros Hnew Hs. revert k.
  induction Hs as [|c s Hc Hs IH]; intros k; simpl; [constructor|].
  destruct k; [|done].
  destruct (startswith old (c :: s)).
  - apply Forall_app; split; [done|apply IH].
  - constructor; [done|apply IH].
Qed.

Lemma replace_Forall (P : N -> Prop) a old new s :
  Forall P new -> Forall P s -> Forall P (replace (a :: old) new s).
Proof. apply replace_scan_Forall. Qed.

(** A text without the first character of [old] has no occurrence of
    [old]. *)
Lemma replace_absent a old new s :
  Forall (fun c => c <> a) s -> replace (a :: old) new s = s.
Proof.
  unfold replace.
  induction 1 as [|c s Hc Hs IH]; simpl; [done|].
  destruct (N.eqb_spec a c) as [->|_]; [done|]. simpl. by rewrite IH.
Qed.

(** After replacing the one-character text [a], no [a] is left. *)
Lemma replace_char_gone a new s :
  Forall (fun c => c <> a) new ->
  Forall (fun c => c <> a) (replace [a] new s).
Proof.
  intros Hnew. unfold replace.
  induction s as [|c s IH]; simpl; [constructor|].
  destruct (N.eqb_spec a c) as [->|Hne]; simpl.
  - apply Forall_app; split; [done|apply IH].
  - constructor; [congruence|apply IH].
Qed.

Lemma replaced_plain text : Forall plain (replaced text).
Proof.
  unfold replaced, plain.
  repeat (apply Forall_and; split).
  - do 4 (apply replace_Forall; [by repeat constructor|]).
    apply replace_char_gone. by repeat constructor.
  - do 3 (apply replace_Forall; [by repeat constructor|]).
    apply replace_char_gone. by repeat constructor.
  - apply replace_Forall; [by repeat constructor|].
    apply replace_char_gone. by repeat constructor.
  - apply replace_char_gone. by repeat constructor.
Qed.

Lemma replaced_fixed text : Forall plain text -> replaced text = text.
Proof.
  intros H. unfold replaced.
  assert (Hno : forall a,
             a = PILCROW \/ a = VT \/ a = CR \/ a = REPLACEMENT ->
             Forall (fun c => c <> a) text).
  { intros a Ha. eapply Forall_impl; [exact H|].
    unfold plain. intros c Hc.
    destruct Ha as [-> | [-> | [-> | ->] ] ]; tauto. }
  rewrite (replace_absent PILCROW [] [LF] text) by (apply Hno; tauto).
  rewrite (replace_absent VT [] [LF] text) by (apply Hno; tauto).
  rewrite (replace_absent CR [LF] [LF] text) by (apply Hno; tauto).
  rewrite (replace_absent CR [] [LF] text) by (apply Hno; tauto).
  apply replace_absent, Hno. tauto.
Qed.

Lemma clean_text_Some text :
  clean_text (Some text) =
    if truthy (strip (replaced text)) then Some (strip (replaced text))
    else None.
Proof.
  unfold clean_text, replaced. destruct text as [|c text]; [|done].
  reflexivity.
Qed.

End TextFacts.

(** C5.  [clean_text] is a total function of its argument alone, and
    cleaning twice is cleaning once: for every text [x], absent or not,
    [clean_text (clean_text x) = clean_text x]. *)
Theorem clean_text_idempotent (x : option pystr) :
  clean_text (clean_text x) = clean_text x.
Proof.
  destruct x as [text|]; [|done].
  rewrite clean_text_Some.
  destruct (truthy (strip (replaced text))) eqn:E; [|done].
  rewrite clean_text_Some.
  rewrite (replaced_fixed (strip (replaced text))).
  - by rewrite strip_idemp, E.
  - apply strip_Forall, replaced_plain.
Qed.

(** C6.  [clean_text] never returns the empty string: its result is
    [None] or a non-empty string; the empty string, and any text that is
    empty after the replacements and the strip, gives [None]. *)
Theorem clean_text_never_empty :
  (forall x : option pystr,
      clean_text x = None \/ exists c s, clean_text x = Some (c :: s)) /\
  clean_text (Some []) = None /\
  (forall text : pystr,
      strip (replaced text) = [] -> clean_text (Some text) = None).
Proof.
  split; [|split].
  - intros [text|]; [|by left].
    rewrite clean_text_Some.
    destruct (strip (replaced text)) as [|c s]; simpl; eauto.
  - reflexivity.
  - intros text H. by rewrite clean_text_Some, H.
Qed.

Lemma clean_text_never_empty_witness :
  clean_text (Some (lit " " ++ [CR; LF; VT])) = None.
Proof.
  apply (proj2 (proj2 clean_text_never_empty)). vm_compute. reflexivity.
Defined.

(** ** One row *)

Ltac unfold_row :=
  unfold import_items_row, import_links_row, import_cliches_row,
    import_names_row, import_literary_terms_row, import_sources_row,
    try_except, try_except_ValueError, bind, eval, raise, ret, continue,
    print, errors_incr, count_incr, source_id_incr, get_errors,
    get_source_id, execute, int,
    item_of_row, link_of_row, cliche_of_row, name_of_row, term_of_row,
    source_of_row, identity, name_identity,
    rejected, accepted_as; simpl.

Ltac row_cases :=
  unfold_row;
  repeat (case_match; simplify_eq/=; try done);
  repeat eexists; simpl; try done; try lia.

Lemma import_items_row_spec now r st :
  exists o st', import_items_row now r st = (o, st') /\
    (forall e, o <> Raise e) /\
    match item_of_row now r with
    | Some x => accepted_as x st st'
    | None => rejected st st'
    end.
Proof. row_cases. Qed.

Lemma import_links_row_spec r st :
  exists o st', import_links_row r st = (o, st') /\
    (forall e, o <> Raise e) /\
    match link_of_row r with
    | Some x => accepted_as x st st'
    | None => rejected st st'
    end.
Proof. row_cases. Qed.

Lemma import_cliches_row_spec r st :
  exists o st', import_cliches_row r st = (o, st') /\
    (forall e, o <> Raise e) /\
    match cliche_of_row r with
    | Some x => accepted_as x st st'
    | None => rejected st st'
    end.
Proof. row_cases. Qed.

Lemma import_names_row_spec r st :
  exists o st', import_names_row r st = (o, st') /\
    (forall e, o <> Raise e) /\
    match name_of_row r with
    | Some x => accepted_as x st st'
    | None => rejected st st'
    end.
Proof. row_cases. Qed.

Lemma import_literary_terms_row_spec r st :
  exists o st', import_literary_terms_row r st = (o, st') /\
    (forall e, o <> Raise e) /\
    match term_of_row r with
    | Some x => accepted_as x st st'
    | None => rejected st st'
    end.
Proof. row_cases. Qed.

Lemma import_sources_row_spec r st :
  exists o st', import_sources_row r st = (o, st') /\
    (forall e, o <> Raise e) /\
    match source_of_row (source_id st) r with
    | Some x => accepted_as x st st' /\ source_id st' = (source_id st + 1)%Z
    | None => rejected st st'
    end.
Proof.
  unfold import_sources_row, source_of_row, index.
  destruct (r !! 0%nat) as [f|] eqn:E0.
  - row_cases.
  - apply lookup_ge_None in E0.
    destruct (length r <? 2)%nat eqn:E; [|apply Nat.ltb_ge in E; lia].
    row_cases.
Qed.

(** ** Loops *)

Section Loops.
Context {R : Type} `{Keyed R}.

(** A loop whose body catches every exception is a left fold of the body
    over the rows. *)
Lemma for_foldl {X} (body : X -> stmt R unit) xs st :
  (forall x st e, fst (body x st) <> Raise e) ->
  snd (for_ xs body st) = foldl (fun st x => snd (body x st)) st xs /\
  forall e, fst (for_ xs body st) <> Raise e.
Proof.
  intros Hbody. revert st.
  induction xs as [|x xs IH]; intros st; simpl; [done|].
  specialize (Hbody x st). destruct (body x st) as [[[]| |e] st']; simpl in *.
  - apply IH.
  - apply IH.
  - by destruct (Hbody e).
Qed.

Lemma foldl_invariant {A B} (I : nat -> A -> Prop) (f : A -> B -> A) xs a :
  I 0%nat a ->
  (forall n a b, xs !! n = Some b -> I n a -> I (S n) (f a b)) ->
  I (length xs) (foldl f a xs).
Proof.
  intros Ha Hstep. induction xs as [|x xs IH] using rev_ind; [done|].
  rewrite foldl_snoc, length_app, Nat.add_1_r. apply Hstep.
  - by rewrite lookup_app_r, Nat.sub_diag.
  - apply IH. intros n a' b Hb. apply Hstep.
    by rewrite lookup_app_l by (by eapply lookup_lt_Some).
Qed.

Lemma replayed_start t0 id : replayed t0 0 (start t0 id).
Proof. by repeat split. Qed.

Lemma replayed_accepted t0 n r st st' :
  accepted_as r st st' -> replayed t0 n st -> replayed t0 (S n) st'.
Proof.
  intros (Ht & He & Hc & Her & _) (It & Ic & In).
  repeat split.
  - by rewrite Ht, He, foldl_snoc, It.
  - rewrite He, length_app. simpl. lia.
  - lia.
Qed.

Lemma replayed_rejected t0 n st st' :
  rejected st st' -> replayed t0 n st -> replayed t0 (S n) st'.
Proof.
  intros (Ht & He & Hc & Her & _) (It & Ic & In).
  repeat split.
  - by rewrite Ht, He.
  - by rewrite He, Hc.
  - lia.
Qed.

Lemma has_key_select k (t : list R) :
  has_key k t = true <-> select k t <> [].
Proof.
  unfold has_key, select. induction t as [|r t IH]; simpl; [done|].
  destruct (key r =? k)%Z; simpl; [done|apply IH].
Qed.

Lemma has_key_elem k (t : list R) :
  has_key k t = false -> k ∉ key <$> t.
Proof.
  unfold has_key. induction t as [|r t IH]; simpl.
  - intros _. apply not_elem_of_nil.
  - intros [Hr Ht]%orb_false_elim. apply not_elem_of_cons. split.
    + apply Z.eqb_neq in Hr. congruence.
    + by apply IH.
Qed.

Lemma insert_or_ignore_NoDup r (t : list R) :
  NoDup (key <$> t) -> NoDup (key <$> insert_or_ignore r t).
Proof.
  intros Ht. unfold insert_or_ignore.
  destruct (has_key (key r) t) eqn:E; [done|].
  rewrite fmap_app. apply NoDup_app. repeat split; [done| |].
  - intros k Hk [->|[]%elem_of_nil]%elem_of_cons.
    by apply has_key_elem in E.
  - apply NoDup_singleton.
Qed.

Lemma select_app k (t u : list R) :
  select k (t ++ u) = select k t ++ select k u.
Proof. apply List.filter_app. Qed.

Lemma insert_all_NoDup rs (t0 : list R) :
  NoDup (key <$> t0) ->
  NoDup (key <$> foldl (fun t r => insert_or_ignore r t) t0 rs).
Proof.
  revert t0. induction rs as [|r rs IH]; intros t0 Ht; simpl; [done|].
  by apply IH, insert_or_ignore_NoDup.
Qed.

(** Of the rows and statements of one identity, the first one is what the
    table holds. *)
Lemma insert_all_select rs (t0 : list R) k :
  NoDup (key <$> t0) ->
  select k (foldl (fun t r => insert_or_ignore r t) t0 rs)
  = take 1 (select k t0 ++ select k rs) /\
  (length (select k t0) <= 1)%nat.
Proof.
  revert t0. induction rs as [|r rs IH]; intros t0 Ht.
  - simpl. rewrite app_nil_r.
    assert (Hlen : (length (select k t0) <= 1)%nat).
    { clear -Ht. induction t0 as [|x t0 IH]; simpl; [lia|].
      apply NoDup_cons in Ht as [Hx Ht].
      destruct (key x =? k)%Z eqn:E; [|by apply IH].
      apply Z.eqb_eq in E. subst k. simpl.
      destruct (select (key x) t0) as [|y u] eqn:Ey; [simpl; lia|].
      exfalso. apply Hx.
      assert (Hy : y ∈ select (key x) t0) by (rewrite Ey; left).
      apply list_elem_of_In, List.filter_In in Hy as [Hy Hk].
      apply Z.eqb_eq in Hk. rewrite <- Hk.
      by apply list_elem_of_fmap_2, list_elem_of_In. }
    split; [|done].
    destruct (select k t0) as [|x [|y u]]; simpl in *; [done|done|lia].
  - simpl foldl.
    destruct (IH (insert_or_ignore r t0)) as [-> _];
      [by apply insert_or_ignore_NoDup|].
    destruct (IH t0 Ht) as [_ Hlen]. split; [|done].
    unfold insert_or_ignore.
    destruct (has_key (key r) t0) eqn:E.
    + change (select k (r :: rs)) with
        (if (key r =? k)%Z then r :: select k rs else select k rs).
      destruct (key r =? k)%Z eqn:Ek; [|done].
      apply Z.eqb_eq in Ek. subst k.
      apply has_key_select in E.
      destruct (select (key r) t0) as [|x u]; [by destruct E|].
      simpl. by rewrite !take_0.
    + rewrite select_app, <- app_assoc. unfold select. simpl.
      by destruct (key r =? k)%Z.
Qed.

End Loops.

Section Imports.
Context {R X : Type} `{Keyed R}.

Lemma settles_no_raise (body : X -> stmt R unit) :
  settles body -> forall x st e, fst (body x st) <> Raise e.
Proof.
  intros Hb x st e. destruct (Hb x st) as (o & st' & -> & Ho & _).
  apply Ho.
Qed.

Lemma settles_replayed (body : X -> stmt R unit) xs t0 id :
  settles body ->
  replayed t0 (length xs) (snd (for_ xs body (start t0 id))).
Proof.
  intros Hb.
  destruct (for_foldl body xs (start t0 id)) as [-> _];
    [by apply settles_no_raise|].
  apply (foldl_invariant (replayed t0)); [apply replayed_start|].
  intros n st x _ Hst.
  destruct (Hb x st) as (o & st' & -> & _ & [[r Hr]|Hr]); simpl.
  - by eapply replayed_accepted.
  - by eapply replayed_rejected.
Qed.

End Imports.

Lemma import_items_row_settles :
  settles (fun x : pystr * row => import_items_row (fst x) (snd x)).
Proof.
  intros [now r] st. simpl.
  destruct (import_items_row_spec now r st) as (o & st' & -> & ? & Hs).
  exists o, st'. repeat split; [done|].
  destruct (item_of_row now r); [left; by eexists|by right].
Qed.

Lemma import_links_row_settles : settles import_links_row.
Proof.
  intros r st.
  destruct (import_links_row_spec r st) as (o & st' & -> & ? & Hs).
  exists o, st'. repeat split; [done|].
  destruct (link_of_row r); [left; by eexists|by right].
Qed.

Lemma import_cliches_row_settles : settles import_cliches_row.
Proof.
  intros r st.
  destruct (import_cliches_row_spec r st) as (o & st' & -> & ? & Hs).
  exists o, st'. repeat split; [done|].
  destruct (cliche_of_row r); [left; by eexists|by right].
Qed.

Lemma import_names_row_settles : settles import_names_row.
Proof.
  intros r st.
  destruct (import_names_row_spec r st) as (o & st' & -> & ? & Hs).
  exists o, st'. repeat split; [done|].
  destruct (name_of_row r); [left; by eexists|by right].
Qed.

Lemma import_literary_terms_row_settles : settles import_literary_terms_row.
Proof.
  intros r st.
  destruct (import_literary_terms_row_spec r st) as (o & st' & -> & ? & Hs).
  exists o, st'. repeat split; [done|].
  destruct (term_of_row r); [left; by eexists|by right].
Qed.

Lemma import_sources_row_settles : settles import_sources_row.
Proof.
  intros r st.
  destruct (import_sources_row_spec r st) as (o & st' & -> & ? & Hs).
  exists o, st'. repeat split; [done|].
  destruct (source_of_row (source_id st) r);
    [left; eexists; apply Hs|by right].
Qed.

Lemma two_cliches_one_identity :
  let st := import_cliches [[lit "7"; lit "first"]; [lit "7"; lit "second"]] []
  in table st = [Cliche.mk 7 (lit "first") None] /\
     count st = 2%Z /\ errors st = 0%Z.
Proof. vm_compute. done. Qed.

(** ** The synthetic keys of [import_sources] *)

Lemma issued_snoc first n :
  issued first (S n) = issued first n ++ [(first + Z.of_nat n)%Z].
Proof. unfold issued. by rewrite seq_S, fmap_app. Qed.

Lemma issued_NoDup first n : NoDup (issued first n).
Proof.
  unfold issued. apply NoDup_fmap_2; [|apply NoDup_seq].
  intros i j Hij. lia.
Qed.

Lemma insert_all_fresh {R} `{Keyed R} (rs t : list R) :
  NoDup (key <$> (t ++ rs)) ->
  foldl (fun t r => insert_or_ignore r t) t rs = t ++ rs.
Proof.
  revert t. induction rs as [|r rs IH]; intros t Hnd; simpl.
  - by rewrite app_nil_r.
  - assert (Hfresh : has_key (key r) t = false).
    { destruct (has_key (key r) t) eqn:E; [|done]. exfalso.
      rewrite fmap_app, fmap_cons in Hnd.
      apply NoDup_app in Hnd as (_ & Hnd & _).
      apply (Hnd (key r)); [|left].
      unfold has_key in E. apply List.existsb_exists in E as (x & Hx & Hk).
      apply Z.eqb_eq in Hk. rewrite <- Hk.
      by apply list_elem_of_fmap_2, list_elem_of_In. }
    replace (insert_or_ignore r t) with (t ++ [r])
      by (unfold insert_or_ignore; by rewrite Hfresh).
    rewrite IH; [by rewrite <- app_assoc|].
    by rewrite <- app_assoc.
Qed.

Lemma source_of_row_id id r x :
  source_of_row id r = Some x ->
  Source.source_id x = id /\ Source.title x = source_title r.
Proof. unfold source_of_row. repeat case_match; by intros [= <-]. Qed.

Lemma source_of_row_titled id r :
  titled r -> sqlite_int id = true -> is_Some (source_of_row id r).
Proof.
  intros [Hlen Ht] Hid. unfold source_of_row.
  apply Nat.ltb_ge in Hlen. rewrite Hlen, Hid.
  destruct (source_title r); [done|]. simpl. eauto.
Qed.

(** C3.  [import_sources] starts its counter at 1000 and advances it by
    one for every accepted row and for no other: after any input the
    counter is 1000 plus the number of accepted rows, and the identities
    of the executed statements are 1000, 1001, ... in that order.  When
    every one of the N rows has at least two fields and a non-empty title
    (and 1000 + N stays within SQLite's integers), all N rows are accepted
    and the i-th row is inserted with identity 1000 + i and its own title;
    into an empty table these are the rows stored. *)
Theorem source_ids_sequential (rows : list row) (t0 : list Source.t) :
  let st := import_sources rows t0 in
  source_id st = (1000 + count st)%Z /\
  Source.source_id <$> executed st = issued 1000 (Z.to_nat (count st)) /\
  (count st + errors st = Z.of_nat (length rows))%Z /\
  (0 <= errors st)%Z /\
  (t0 = [] -> table st = executed st) /\
  (Forall titled rows -> (1000 + Z.of_nat (length rows) <= 2 ^ 63)%Z ->
   count st = Z.of_nat (length rows) /\
   Source.source_id <$> executed st = issued 1000 (length rows) /\
   Source.title <$> executed st = source_title <$> rows).
Proof.
  intros st. subst st. unfold import_sources.
  pose proof (settles_replayed import_sources_row rows t0 1000
                import_sources_row_settles) as (Ht & Hc & Hn).
  destruct (for_foldl import_sources_row rows (start t0 1000)) as [Hf _];
    [apply settles_no_raise, import_sources_row_settles|].
  rewrite Hf in *. clear Hf.
  set (f := fun st x => snd (import_sources_row x st)) in *.
  assert (Hgen :
    source_id (foldl f (start t0 1000) rows)
    = (1000 + count (foldl f (start t0 1000) rows))%Z /\
    Source.source_id <$> executed (foldl f (start t0 1000) rows)
    = issued 1000 (length (executed (foldl f (start t0 1000) rows))) /\
    count (foldl f (start t0 1000) rows)
    = Z.of_nat (length (executed (foldl f (start t0 1000) rows))) /\
    (0 <= errors (foldl f (start t0 1000) rows))%Z).
  { apply (foldl_invariant (fun (_ : nat) st =>
      source_id st = (1000 + count st)%Z /\
      Source.source_id <$> executed st = issued 1000 (length (executed st)) /\
      count st = Z.of_nat (length (executed st)) /\
      (0 <= errors st)%Z) f rows (start t0 1000)); [done|].
    intros _ st r _ (Hid & Hk & Hcnt & Herr). subst f. simpl.
    destruct (import_sources_row_spec r st) as (o & st' & -> & _ & Hs).
    simpl. destruct (source_of_row (source_id st) r) as [x|] eqn:Ex.
    - destruct Hs as [(_ & He & Hc' & Her & _) Hid'].
      apply source_of_row_id in Ex as [Ex _].
      rewrite He, fmap_app, length_app, Nat.add_1_r, issued_snoc, Hk.
      simpl. rewrite Ex. split_and!; [lia| |lia|lia].
      do 2 f_equal. lia.
    - destruct Hs as (_ & He & Hc' & Her & Hid').
      rewrite He. split_and!; [lia|done|lia|lia]. }
  destruct Hgen as (Hid & Hk & _ & Herr).
  assert (Hlen : Z.to_nat (count (foldl f (start t0 1000) rows))
                 = length (executed (foldl f (start t0 1000) rows)))
    by lia.
  split_and!; [done|by rewrite Hlen|done|done| |].
  - intros ->. rewrite Ht. apply (insert_all_fresh _ []). simpl.
    rewrite Hk. apply issued_NoDup.
  - intros Hrows Hbound.
    assert (Hall :
      count (foldl f (start t0 1000) rows) = Z.of_nat (length rows) /\
      Source.title <$> executed (foldl f (start t0 1000) rows)
      = source_title <$> take (length rows) rows).
    { apply (foldl_invariant (fun (n : nat) st =>
        (n <= length rows)%nat ->
        source_id st = (1000 + Z.of_nat n)%Z /\
        count st = Z.of_nat n /\
        Source.title <$> executed st = source_title <$> take n rows)
        f rows (start t0 1000)); [done| |done].
      intros n st r Hr IH Hle. subst f. simpl.
      destruct IH as (Hsid & Hcn & Htl); [lia|].
      destruct (import_sources_row_spec r st) as (o & st' & -> & _ & Hs).
      simpl.
      destruct (source_of_row_titled (source_id st) r) as [x Hx].
      { eapply Forall_lookup_1; eauto. }
      { unfold sqlite_int. rewrite Hsid. apply andb_true_iff.
        split; [apply Z.leb_le|apply Z.ltb_lt]; lia. }
      rewrite Hx in Hs. destruct Hs as [(_ & He & Hc' & _) Hid'].
      apply source_of_row_id in Hx as [_ Hx].
      rewrite He, fmap_app, Htl. simpl. rewrite Hx.
      rewrite (take_S_r _ _ _ Hr), fmap_app. split_and!; [lia|lia|done]. }
    destruct Hall as [Hcr Htr]. rewrite firstn_all in Htr.
    split_and!; [done| |done].
    rewrite Hk. f_equal. lia.
Qed.

Lemma source_ids_sequential_witness :
  let rows := [[lit "Frost"; lit "RF"; lit "North of Boston"];
               [lit ""; lit "Anthology"]] in
  let st := import_sources rows [] in
  count st = 2%Z /\
  Source.source_id <$> executed st = issued 1000 2 /\
  Source.title <$> executed st = source_title <$> rows.
Proof.
  intros rows.
  refine (proj2 (proj2 (proj2 (proj2 (proj2
            (source_ids_sequential rows []))))) _ _).
  - repeat constructor; simpl; lia || done.
  - simpl. lia.
Defined.

(** ** Acceptance and rejection of one row *)

Section Decides.
Context {R : Type} `{Keyed R}.

Lemma decides_None (m : stmt R unit) st :
  decides m st None -> rejected st (snd (m st)).
Proof. by intros (o & st' & -> & _ & Hs). Qed.

Lemma decides_Some (m : stmt R unit) st x :
  decides m st (Some x) -> accepted_as x st (snd (m st)).
Proof. by intros (o & st' & -> & _ & Hs). Qed.

Lemma decides_counted (m : stmt R unit) st d :
  decides m st d ->
  count (snd (m st)) = (count st + 1)%Z <-> is_Some d.
Proof.
  intros (o & st' & -> & _ & Hs). simpl. destruct d as [x|].
  - destruct Hs as (_ & _ & Hc & _). split; [eauto|done].
  - destruct Hs as (_ & _ & Hc & _). split; [lia|by intros []].
Qed.

End Decides.

Lemma identity_Some r i n :
  identity r i = Some n <->
  exists f, r !! i = Some f /\ f <> [] /\ parse_int f = Some n /\ n <> 0%Z.
Proof.
  unfold identity, int_or_None, index, int.
  destruct (r !! i) as [f|].
  - destruct f as [|c f]; simpl.
    + split; [done|]. by intros (f & [= <-] & Hf & _).
    + destruct (parse_int (c :: f)) as [m|] eqn:Em.
      * destruct (Z.eqb_spec m 0) as [->|Hm].
        -- split; [done|]. intros (g & [= <-] & _ & Hg & Hn). congruence.
        -- split.
           ++ intros [= <-]. by exists (c :: f).
           ++ intros (g & [= <-] & _ & Hg & _). congruence.
      * split; [done|]. intros (g & [= <-] & _ & Hg & _). congruence.
  - split; [done|]. by intros (f & Hf & _).
Qed.


Lemma name_identity_Some r n :
  name_identity r = Some n ->
  (exists f, r !! 0%nat = Some f /\ f <> [] /\
             parse_int f = Some n /\ n <> 0%Z) \/
  (exists f g, r !! 0%nat = Some f /\ f <> [] /\ parse_int f = None /\
               r !! 2%nat = Some g /\ isdigit g = true /\
               parse_int g = Some n /\ n <> 0%Z).
Proof.
  unfold name_identity, int_or_None, index, int.
  destruct (r !! 0%nat) as [f|]; [|done].
  destruct f as [|c f]; simpl; [done|].
  destruct (parse_int (c :: f)) as [m|] eqn:Em.
  - destruct (Z.eqb_spec m 0); [done|]. intros [= <-]. left.
    by exists (c :: f).
  - destruct (r !! 2%nat) as [g|]; [|done].
    destruct (isdigit g) eqn:Eg; [|done].
    destruct (parse_int g) as [m|] eqn:Eg'; [|done].
    destruct (Z.eqb_spec m 0); [done|]. intros [= <-]. right.
    by exists (c :: f), g.
Qed.






(** What [import_names] does with a row in general: it accepts it exactly
    when it has two fields or more and [name_identity] finds an identity
    that fits SQLite's integers. *)
Lemma import_names_row_accepts_iff r st :
  count (snd (import_names_row r st)) = (count st + 1)%Z <->
  (2 <= length r)%nat /\
  exists n, name_identity r = Some n /\ sqlite_int n = true.
Proof.
  rewrite (decides_counted _ _ _ (import_names_row_spec r st)).
  unfold name_of_row.
  destruct (Nat.ltb_spec (length r) 2) as [Hlt|Hge].
  - split; [by intros []|]. intros [Hle _]. lia.
  - destruct (name_identity r) as [n|].
    + destruct (sqlite_int n) eqn:E.
      * split; [|eauto]. intros _. split; [done|]. by exists n.
      * split; [by intros []|]. intros (_ & m & [= <-] & Hm). congruence.
    + split; [by intros []|]. by intros (_ & m & [=] & _).
Qed.

(** C2, on the row in the old format that the comment of [import_names]
    describes, [empty, name, id, type]: the third field is all digits and
    is the integer 1005, yet the fallback is not tried, because the empty
    first field never reaches [int] and so never raises [ValueError]; the
    row is counted as an error and nothing is inserted. *)
Lemma names_old_format_row_rejected :
  let r := [lit ""; lit "Adams"; lit "1005"; lit "last"] in
  let st := snd (import_names_row r (start [] 0)) in
  isdigit (lit "1005") = true /\ parse_int (lit "1005") = Some 1005%Z /\
  table st = [] /\ executed st = [] /\ count st = 0%Z /\ errors st = 1%Z /\
  stdout st = [].
Proof. vm_compute. done. Qed.

(** ** The shape check *)

Lemma link_of_row_identity r :
  is_Some (link_of_row r) <->
  (3 <= length r)%nat /\
  exists a b c, identity r 0 = Some a /\ identity r 1 = Some b /\
                identity r 2 = Some c /\
                forallb sqlite_int [a; b; c] = true.
Proof.
  unfold link_of_row, identity.
  destruct (Nat.ltb_spec (length r) 3) as [Hlt|Hge].
  { split; [by intros []|]. intros [Hle _]. lia. }
  destruct (int_or_None r 0) as [e|[a|]]; cycle 1.
  - destruct (Z.eqb_spec a 0) as [->|Ha]; simpl.
    + split; [|by intros (_ & a & b & c & [=] & _)].
      intros [x Hx]. by repeat case_match.
    + destruct (int_or_None r 1) as [e|[b|]]; cycle 1.
      * destruct (Z.eqb_spec b 0) as [->|Hb]; simpl.
        -- split; [|by intros (_ & a' & b & c & _ & [=] & _)].
           intros [x Hx]. by repeat case_match.
        -- destruct (int_or_None r 2) as [e|[c|]]; cycle 1.
           ++ destruct (Z.eqb_spec c 0) as [->|Hc]; simpl.
              ** split; [by intros []|].
                 by intros (_ & a' & b' & c & _ & _ & [=] & _).
              ** destruct (sqlite_int a && (sqlite_int b &&
                             (sqlite_int c && true))) eqn:E.
                 --- split; [|eauto]. intros _. split; [done|].
                     by exists a, b, c.
                 --- split; [by intros []|].
                     intros (_ & a' & b' & c' & [= <-] & [= <-] & [= <-] & Hs).
                     simpl in Hs. congruence.
           ++ split; [by intros []|].
              by intros (_ & a' & b' & c & _ & _ & [=] & _).
           ++ split; [by intros []|].
              by intros (_ & a' & b' & c & _ & _ & [=] & _).
      * split; [by intros []|]. by intros (_ & a' & b & c & _ & [=] & _).
      * split; [by intros []|]. by intros (_ & a' & b & c & _ & [=] & _).
  - split; [by intros []|]. by intros (_ & a & b & c & [=] & _).
  - split; [by intros []|]. by intros (_ & a & b & c & [=] & _).
Qed.

Lemma name_identity_short r :
  r !! 2%nat = None -> name_identity r = identity r 0.
Proof.
  intros Hr. unfold name_identity, identity. rewrite Hr.
  by destruct (int_or_None r 0) as [[]|[]].
Qed.

(** C7.  In every importer a row with one field fewer than the minimum
    (10 for Item, 3 for Link, 2 for the others) is rejected with nothing
    inserted, the Item importer printing its insufficient-columns line;
    and a row with exactly the minimum passes the check, the rest of the
    body deciding: it is accepted exactly when its identity (for Link all
    three identities, for Source the title and the next synthetic key) is
    usable. *)
Theorem shape_check_at_the_minimum :
  (forall now r st, length r = 9%nat ->
     rejected st (snd (import_items_row now r st)) /\
     stdout (snd (import_items_row now r st))
     = stdout st ++ [SkippingColumns 9]) /\
  (forall now r st, length r = 10%nat ->
     count (snd (import_items_row now r st)) = (count st + 1)%Z <->
     exists n, identity r 0 = Some n /\ sqlite_int n = true) /\
  (forall r st, length r = 2%nat ->
     rejected st (snd (import_links_row r st))) /\
  (forall r st, length r = 3%nat ->
     count (snd (import_links_row r st)) = (count st + 1)%Z <->
     exists a b c, identity r 0 = Some a /\ identity r 1 = Some b /\
                   identity r 2 = Some c /\
                   forallb sqlite_int [a; b; c] = true) /\
  (forall r st, length r = 1%nat ->
     rejected st (snd (import_cliches_row r st))) /\
  (forall r st, length r = 2%nat ->
     count (snd (import_cliches_row r st)) = (count st + 1)%Z <->
     exists n, identity r 0 = Some n /\ sqlite_int n = true) /\
  (forall r st, length r = 1%nat ->
     rejected st (snd (import_names_row r st))) /\
  (forall r st, length r = 2%nat ->
     count (snd (import_names_row r st)) = (count st + 1)%Z <->
     exists n, identity r 0 = Some n /\ sqlite_int n = true) /\
  (forall r st, length r = 1%nat ->
     rejected st (snd (import_literary_terms_row r st))) /\
  (forall r st, length r = 2%nat ->
     count (snd (import_literary_terms_row r st)) = (count st + 1)%Z <->
     exists n, identity r 0 = Some n /\ sqlite_int n = true) /\
  (forall r st, length r = 1%nat ->
     rejected st (snd (import_sources_row r st))) /\
  (forall r st, length r = 2%nat ->
     count (snd (import_sources_row r st)) = (count st + 1)%Z <->
     (exists t, r !! 1%nat = Some t /\ t <> []) /\
     sqlite_int (source_id st) = true).
Proof.
  split_and!.
  - intros now r st Hlen. split.
    + apply decides_None.
      pose proof (import_items_row_spec now r st) as Hs.
      unfold item_of_row in Hs. by rewrite Hlen in Hs.
    + unfold import_items_row, try_except, bind. by rewrite Hlen.
  - intros now r st Hlen.
    rewrite (decides_counted _ _ _ (import_items_row_spec now r st)).
    unfold item_of_row. rewrite Hlen. simpl.
    destruct (identity r 0) as [n|];
      [|split; [by intros []|by intros (? & [=] & _)]].
    destruct (sqlite_int n) eqn:E.
    + split; [eauto|by eauto].
    + split; [by intros []|]. intros (m & [= <-] & Hm). congruence.
  - intros r st Hlen. apply decides_None.
    pose proof (import_links_row_spec r st) as Hs.
    unfold link_of_row in Hs. by rewrite Hlen in Hs.
  - intros r st Hlen.
    rewrite (decides_counted _ _ _ (import_links_row_spec r st)).
    rewrite link_of_row_identity, Hlen. split; [by intros [_ ?]|by split].
  - intros r st Hlen. apply decides_None.
    pose proof (import_cliches_row_spec r st) as Hs.
    unfold cliche_of_row in Hs. by rewrite Hlen in Hs.
  - intros r st Hlen.
    rewrite (decides_counted _ _ _ (import_cliches_row_spec r st)).
    unfold cliche_of_row. rewrite Hlen. simpl.
    destruct (identity r 0) as [n|];
      [|split; [by intros []|by intros (? & [=] & _)]].
    destruct (sqlite_int n) eqn:E.
    + split; [eauto|by eauto].
    + split; [by intros []|]. intros (m & [= <-] & Hm). congruence.
  - intros r st Hlen. apply decides_None.
    pose proof (import_names_row_spec r st) as Hs.
    unfold name_of_row in Hs. by rewrite Hlen in Hs.
  - intros r st Hlen.
    rewrite (decides_counted _ _ _ (import_names_row_spec r st)).
    unfold name_of_row. rewrite Hlen. simpl.
    rewrite name_identity_short by (apply lookup_ge_None; lia).
    destruct (identity r 0) as [n|];
      [|split; [by intros []|by intros (? & [=] & _)]].
    destruct (sqlite_int n) eqn:E.
    + split; [eauto|by eauto].
    + split; [by intros []|]. intros (m & [= <-] & Hm). congruence.
  - intros r st Hlen. apply decides_None.
    pose proof (import_literary_terms_row_spec r st) as Hs.
    unfold term_of_row in Hs. by rewrite Hlen in Hs.
  - intros r st Hlen.
    rewrite (decides_counted _ _ _ (import_literary_terms_row_spec r st)).
    unfold term_of_row. rewrite Hlen. simpl.
    destruct (identity r 0) as [n|];
      [|split; [by intros []|by intros (? & [=] & _)]].
    destruct (sqlite_int n) eqn:E.
    + split; [eauto|by eauto].
    + split; [by intros []|]. intros (m & [= <-] & Hm). congruence.
  - intros r st Hlen.
    destruct (import_sources_row_spec r st) as (o & st' & -> & _ & Hs).
    unfold source_of_row in Hs. by rewrite Hlen in Hs.
  - intros r st Hlen.
    destruct (import_sources_row_spec r st) as (o & st' & -> & _ & Hs).
    simpl. unfold source_of_row, source_title, field_or in Hs.
    rewrite Hlen in Hs. simpl in Hs.
    destruct r as [|f0 [|f1 [|f2 r]]]; try done. simpl in *.
    destruct f1 as [|c f1]; simpl in *.
    + destruct Hs as (_ & _ & Hc & _). split; [lia|].
      by intros [(t & [= <-] & Ht) _].
    + destruct (sqlite_int (source_id st)) eqn:E.
      * destruct Hs as [(_ & _ & Hc & _) _]. split; [|done].
        intros _. split; [|done]. by exists (c :: f1).
      * destruct Hs as (_ & _ & Hc & _). split; [lia|]. by intros [_ ?].
Qed.

Lemma shape_check_at_the_minimum_witness :
  let nine := replicate 9 (lit "1") in
  let ten := replicate 10 (lit "1") in
  rejected (start [] 0) (snd (import_items_row [] nine (start [] 0))) /\
  count (snd (import_items_row [] ten (start [] 0))) = 1%Z.
Proof.
  intros nine ten. split.
  - apply (proj1 shape_check_at_the_minimum [] nine (start [] 0)).
    reflexivity.
  - apply (proj1 (proj2 shape_check_at_the_minimum) [] ten (start [] 0)).
    + reflexivity.
    + exists 1%Z. split; reflexivity.
Defined.

(** ** What the loops print *)

Lemma row_lines_snoc out l :
  row_lines (out ++ [l]) = (row_lines out + if shows_row l then 1 else 0)%nat.
Proof.
  unfold row_lines. rewrite List.filter_app, length_app. simpl.
  by destruct (shows_row l).
Qed.

Ltac print_cases :=
  unfold_row; unfold prints_invalid_id;
  repeat (case_match; simplify_eq/=; try done);
  rewrite ?row_lines_snoc; simpl; try lia.

Lemma import_links_row_lines r st :
  row_lines (stdout (snd (import_links_row r st))) = row_lines (stdout st).
Proof. print_cases. Qed.

Lemma import_cliches_row_lines r st :
  row_lines (stdout (snd (import_cliches_row r st))) = row_lines (stdout st).
Proof. print_cases. Qed.

Lemma import_literary_terms_row_lines r st :
  row_lines (stdout (snd (import_literary_terms_row r st)))
  = row_lines (stdout st).
Proof. print_cases. Qed.

Lemma import_sources_row_lines r st :
  row_lines (stdout (snd (import_sources_row r st))) = row_lines (stdout st).
Proof. unfold index. print_cases. Qed.

Lemma import_names_row_lines r st :
  row_lines (stdout (snd (import_names_row r st)))
  = (row_lines (stdout st) + if prints_invalid_id r then 1 else 0)%nat.
Proof.
  unfold import_names_row, prints_invalid_id.
  destruct (Nat.ltb_spec (length r) 2) as [Hlt|Hge].
  - replace (2 <=? length r)%nat with false
      by (symmetry; apply Nat.leb_gt; lia).
    print_cases.
  - replace (2 <=? length r)%nat with true
      by (symmetry; apply Nat.leb_le; lia).
    print_cases.
Qed.

(** The Item importer prints a row only on an exception and only while
    fewer than five rows have been rejected. *)
Lemma import_items_row_lines now r st :
  let st' := snd (import_items_row now r st) in
  (errors st <= errors st')%Z /\
  (row_lines (stdout st') = row_lines (stdout st) \/
   row_lines (stdout st') = S (row_lines (stdout st)) /\
   errors st' = (errors st + 1)%Z /\ (errors st' < 5)%Z).
Proof.
  unfold_row.
  repeat (case_match; simplify_eq/=; try done);
    rewrite ?row_lines_snoc; simpl;
    rewrite ?Z.ltb_lt in *; (split; [lia|]); (left; lia) || (right; lia).
Qed.

Section Printed.
Context {R X : Type} `{Keyed R}.

Lemma for_row_lines (body : X -> stmt R unit) (p : X -> bool) xs st :
  settles body ->
  (forall x st, row_lines (stdout (snd (body x st)))
                = (row_lines (stdout st) + if p x then 1 else 0)%nat) ->
  row_lines (stdout (snd (for_ xs body st)))
  = (row_lines (stdout st) + length (List.filter p xs))%nat.
Proof.
  intros Hb Hp.
  destruct (for_foldl body xs st) as [-> _]; [by apply settles_no_raise|].
  revert st. induction xs as [|x xs IH]; intros st; simpl; [lia|].
  rewrite IH, Hp. destruct (p x); simpl; lia.
Qed.

End Printed.

Lemma filter_none {A} (xs : list A) : List.filter (fun _ => false) xs = [].
Proof. by induction xs. Qed.

Lemma import_names_prints rows t :
  row_lines (stdout (import_names rows t))
  = length (List.filter prints_invalid_id rows).
Proof.
  unfold import_names.
  rewrite (for_row_lines import_names_row prints_invalid_id);
    [done|apply import_names_row_settles|apply import_names_row_lines].
Qed.

(** C8, as the code has it.  Only [import_items] caps the rows it prints:
    its fault handler prints the row only while fewer than five rows have
    been rejected, so at most four rows are printed whatever the input.
    [import_links], [import_cliches], [import_literary_terms] and
    [import_sources] never print a row.  [import_names] prints the whole
    row for every row whose first field is not an integer and whose third
    field is missing or not all digits, one line for each such row. *)
Theorem row_context_lines :
  (forall clock rows t,
     (row_lines (stdout (import_items clock rows t)) <= 4)%nat) /\
  (forall rows t, row_lines (stdout (import_links rows t)) = 0%nat) /\
  (forall rows t, row_lines (stdout (import_cliches rows t)) = 0%nat) /\
  (forall rows t,
     row_lines (stdout (import_literary_terms rows t)) = 0%nat) /\
  (forall rows t, row_lines (stdout (import_sources rows t)) = 0%nat) /\
  (forall rows t,
     row_lines (stdout (import_names rows t))
     = length (List.filter prints_invalid_id rows)).
Proof.
  split_and!.
  - intros clock rows t. unfold import_items.
    set (body := fun x : pystr * row => import_items_row (fst x) (snd x)).
    destruct (for_foldl body (imap (fun i r => (clock i, r)) rows)
                (start t 0)) as [-> _];
      [apply settles_no_raise, import_items_row_settles|].
    enough (Hinv :
      (Z.of_nat (row_lines (stdout
         (foldl (fun st x => snd (body x st)) (start t 0)
            (imap (fun i r => (clock i, r)) rows)))) <= 4)%Z /\
      (Z.of_nat (row_lines (stdout
         (foldl (fun st x => snd (body x st)) (start t 0)
            (imap (fun i r => (clock i, r)) rows))))
       <= errors (foldl (fun st x => snd (body x st)) (start t 0)
            (imap (fun i r => (clock i, r)) rows)))%Z) by lia.
    apply (foldl_invariant (fun (_ : nat) st =>
      (Z.of_nat (row_lines (stdout st)) <= 4)%Z /\
      (Z.of_nat (row_lines (stdout st)) <= errors st)%Z)); [done|].
    intros _ st [now r] _ [H4 He]. subst body. simpl.
    destruct (import_items_row_lines now r st) as [Hle [->|(-> & Hs & H5)]];
      lia.
  - intros rows t. unfold import_links.
    rewrite (for_row_lines import_links_row (fun _ => false));
      [by rewrite filter_none|apply import_links_row_settles|].
    intros. rewrite import_links_row_lines. lia.
  - intros rows t. unfold import_cliches.
    rewrite (for_row_lines import_cliches_row (fun _ => false));
      [by rewrite filter_none|apply import_cliches_row_settles|].
    intros. rewrite import_cliches_row_lines. lia.
  - intros rows t. unfold import_literary_terms.
    rewrite (for_row_lines import_literary_terms_row (fun _ => false));
      [by rewrite filter_none|apply import_literary_terms_row_settles|].
    intros. rewrite import_literary_terms_row_lines. lia.
  - intros rows t. unfold import_sources.
    rewrite (for_row_lines import_sources_row (fun _ => false));
      [by rewrite filter_none|apply import_sources_row_settles|].
    intros. rewrite import_sources_row_lines. lia.
  - apply import_names_prints.
Qed.

(** C8 as stated fails for Name: no constant bounds the number of rows
    [import_names] prints; [B + 1] rows with a first field that is not an
    integer and no third field print [B + 1] rows. *)
Lemma names_row_context_unbounded :
  ~ exists B : nat, forall rows : list row,
      (row_lines (stdout (import_names rows [])) <= B)%nat.
Proof.
  intros [B HB].
  specialize (HB (replicate (S B) [lit "x"; lit "Adams"])).
  rewrite import_names_prints in HB.
  assert (Hall : forall n,
    List.filter prints_invalid_id (replicate n [lit "x"; lit "Adams"])
    = replicate n [lit "x"; lit "Adams"]).
  { induction n as [|n IH]; [done|].
    change (replicate (S n) [lit "x"; lit "Adams"])
      with ([lit "x"; lit "Adams"] :: replicate n [lit "x"; lit "Adams"]).
    simpl List.filter.
    replace (prints_invalid_id [lit "x"; lit "Adams"]) with true
      by (vm_compute; reflexivity).
    by rewrite IH. }
  rewrite Hall, length_replicate in HB. lia.
Qed.

(** ** The tuples inserted *)

(** C9.  A Name row accepted through the old-format branch (its first
    field is not empty and is not an integer) is inserted under the
    identity read from its third field, which is all digits, and still
    with the columns of the primary layout: the name is the second field,
    the type is the third field, the digits of the identity, and the
    gender is the fourth field, absent if the row has none.  Every
    accepted Name row is inserted with no description and no notes. *)
Theorem names_fallback_keeps_primary_layout :
  (forall r st f0,
     r !! 0%nat = Some f0 -> f0 <> [] -> parse_int f0 = None ->
     count (snd (import_names_row r st)) = (count st + 1)%Z ->
     exists f1 f2 n,
       r !! 1%nat = Some f1 /\ r !! 2%nat = Some f2 /\
       isdigit f2 = true /\ parse_int f2 = Some n /\
       accepted_as (Name.mk n f1 (Some f2) (r !! 3%nat) None None)
         st (snd (import_names_row r st))) /\
  (forall r st,
     count (snd (import_names_row r st)) = (count st + 1)%Z ->
     exists x, accepted_as x st (snd (import_names_row r st)) /\
               Name.description x = None /\ Name.notes x = None).
Proof.
  split.
  - intros r st f0 Hf0 Hne Hp Hc.
    pose proof (import_names_row_spec r st) as Hs.
    apply (decides_counted _ _ _ Hs) in Hc as [x Hx].
    rewrite Hx in Hs. apply decides_Some in Hs.
    revert Hx. unfold name_of_row, name_identity, int_or_None, index, int.
    rewrite Hf0. destruct f0 as [|c f0]; [done|]. simpl. rewrite Hp.
    destruct (length r <? 2)%nat eqn:Hlen; [done|].
    apply Nat.ltb_ge in Hlen.
    destruct (r !! 1%nat) as [f1|] eqn:Hf1;
      [|apply lookup_ge_None in Hf1; lia].
    destruct (r !! 2%nat) as [f2|] eqn:Hf2; [|done].
    destruct (isdigit f2) eqn:Hd; [|done].
    destruct (parse_int f2) as [n|] eqn:Hn; [|done].
    destruct (n =? 0)%Z; [done|].
    destruct (sqlite_int n); [|done].
    intros [= <-]. exists f1, f2, n. split_and!; try done.
    revert Hs. unfold field_or. by rewrite Hf1.
  - intros r st Hc.
    pose proof (import_names_row_spec r st) as Hs.
    apply (decides_counted _ _ _ Hs) in Hc as [x Hx].
    rewrite Hx in Hs. apply decides_Some in Hs.
    exists x. split; [done|].
    revert Hx. unfold name_of_row.
    repeat case_match; try done; by intros [= <-].
Qed.

Lemma names_fallback_keeps_primary_layout_witness :
  let r := [lit "x"; lit "Adams"; lit "77"; lit "last"] in
  exists f1 f2 n,
    r !! 1%nat = Some f1 /\ r !! 2%nat = Some f2 /\
    isdigit f2 = true /\ parse_int f2 = Some n /\
    accepted_as (Name.mk n f1 (Some f2) (r !! 3%nat) None None)
      (start [] 0) (snd (import_names_row r (start [] 0))).
Proof.
  intros r.
  apply (proj1 names_fallback_keeps_primary_layout r (start [] 0) (lit "x")).
  - reflexivity.
  - discriminate.
  - vm_compute. reflexivity.
  - vm_compute. reflexivity.
Defined.

Lemma import_items_row_clock now now' r st :
  import_items_row now r st = import_items_row now' r st.
Proof.
  unfold import_items_row.
  destruct (length r <? 10)%nat eqn:Hlen; [done|].
  apply Nat.ltb_ge in Hlen.
  destruct (r !! 9%nat) as [f|] eqn:Hf;
    [|apply lookup_ge_None in Hf; lia].
  assert (E : field_or r 9 now = field_or r 9 now')
    by (unfold field_or; by rewrite Hf).
  by rewrite E.
Qed.

Lemma for_items_clock (clock clock' : nat -> pystr) rows st :
  for_ (imap (fun i r => (clock i, r)) rows)
    (fun x => import_items_row (fst x) (snd x)) st
  = for_ (imap (fun i r => (clock' i, r)) rows)
      (fun x => import_items_row (fst x) (snd x)) st.
Proof.
  revert clock clock' st.
  induction rows as [|r rows IH]; intros clock clock' st; simpl; [done|].
  rewrite (import_items_row_clock (clock 0%nat) (clock' 0%nat)).
  destruct (import_items_row (clock' 0%nat) r st) as [[[]| |e] st'];
    [apply (IH (clock ∘ S) (clock' ∘ S))
    |apply (IH (clock ∘ S) (clock' ∘ S))|done].
Qed.

(** C10.  An accepted Item row has at least ten fields, so neither default
    of the trailing fields is taken: the category inserted is the third
    field, not the Reference default, and the modification time inserted
    is the tenth field, not the clock.  The clock is never read: a row,
    and a whole import, is processed in the same way whatever the time. *)
Theorem accepted_item_uses_no_default :
  (forall now r st,
     count (snd (import_items_row now r st)) = (count st + 1)%Z ->
     exists x f2 f9,
       accepted_as x st (snd (import_items_row now r st)) /\
       (10 <= length r)%nat /\
       r !! 2%nat = Some f2 /\ Item.type x = f2 /\
       r !! 9%nat = Some f9 /\ Item.modified_at x = f9) /\
  (forall now now' r st,
     import_items_row now r st = import_items_row now' r st) /\
  (forall clock clock' rows t,
     import_items clock rows t = import_items clock' rows t).
Proof.
  split_and!.
  - intros now r st Hc.
    pose proof (import_items_row_spec now r st) as Hs.
    apply (decides_counted _ _ _ Hs) in Hc as [x Hx].
    rewrite Hx in Hs. apply decides_Some in Hs.
    revert Hx. unfold item_of_row.
    destruct (length r <? 10)%nat eqn:Hlen; [done|].
    apply Nat.ltb_ge in Hlen.
    destruct (r !! 2%nat) as [f2|] eqn:Hf2;
      [|apply lookup_ge_None in Hf2; lia].
    destruct (r !! 9%nat) as [f9|] eqn:Hf9;
      [|apply lookup_ge_None in Hf9; lia].
    destruct (identity r 0) as [n|]; [|done].
    destruct (sqlite_int n); [|done].
    intros [= <-]. eexists _, f2, f9. split_and!; try done.
    + simpl. unfold field_or. by rewrite Hf2.
    + simpl. unfold field_or. by rewrite Hf9.
  - apply import_items_row_clock.
  - intros clock clock' rows t. unfold import_items.
    by rewrite (for_items_clock clock clock').
Qed.

Lemma accepted_item_uses_no_default_witness :
  let glimmer :=
    [lit "1"; lit "glimmer"; lit "Word";
     lit "a faint light" ++ [PILCROW] ++ lit "soft";
     lit ""; lit ""; lit ""; lit ""; lit ""; lit "2024-01-01"] in
  exists x f2 f9,
    accepted_as x (start [] 0)
      (snd (import_items_row (lit "now") glimmer (start [] 0))) /\
    (10 <= length glimmer)%nat /\
    glimmer !! 2%nat = Some f2 /\ Item.type x = f2 /\
    glimmer !! 9%nat = Some f9 /\ Item.modified_at x = f9.
Proof.
  intros glimmer.
  apply (proj1 accepted_item_uses_no_default (lit "now") glimmer
           (start [] 0)).
  vm_compute. reflexivity.
Defined.

(** The end-to-end example of the specification: of the two Item rows the
    first is accepted, with a line break where the paragraph mark was, and
    the second is rejected for its missing identity. *)
Lemma glimmer_and_broken :
  let glimmer :=
    [lit "1"; lit "glimmer"; lit "Word";
     lit "a faint light" ++ [PILCROW] ++ lit "soft";
     lit ""; lit ""; lit ""; lit ""; lit ""; lit "2024-01-01"] in
  let broken :=
    [lit ""; lit "broken"; lit "Word"; lit "x"; lit ""; lit ""; lit "";
     lit ""; lit ""; lit "2024-01-01"] in
  let st := import_items (fun _ => []) [glimmer; broken] [] in
  count st = 1%Z /\ errors st = 1%Z /\
  stdout st = [SkippingMissingID] /\
  (Item.item_id <$> table st) = [1%Z] /\
  (Item.definition <$> table st)
  = [Some (lit "a faint light" ++ [LF] ++ lit "soft")].
Proof. vm_compute. done. Qed.

(** ** The models of [int] and [isdigit] on a few texts *)

Lemma parse_int_examples :
  parse_int (lit "-5") = Some (-5)%Z /\
  parse_int (lit " 7 ") = Some 7%Z /\
  parse_int (lit "+007") = Some 7%Z /\
  parse_int (lit "1_000") = Some 1000%Z /\
  parse_int [1635; 1636] = Some 34%Z /\
  parse_int (lit "1__0") = None /\
  parse_int (lit "_1") = None /\
  parse_int (lit "12 3") = None /\
  parse_int (lit "0x10") = None /\
  parse_int (lit "") = None /\
  parse_int (lit "abc") = None /\
  isdigit (lit "1005") = true /\
  isdigit (lit "-1") = false /\
  isdigit (lit "") = false /\
  isdigit [178] = true /\ parse_int [178] = None.
Proof. vm_compute. done. Qed.

(** * Further properties *)

Local Open Scope nat_scope.

(** ** More on [clean_text] *)

Lemma rstrip_last s c : last (rstrip s) = Some c -> isspace c = false.
Proof.
  induction s as [|d s IH]; simpl; [done|].
  destruct (rstrip s) as [|e t] eqn:E.
  - destruct (isspace d) eqn:Ed; simpl; [done|]. by intros [= <-].
  - intros Hl. apply IH. by rewrite last_cons_cons in Hl.
Qed.

Lemma startswith_length p s : startswith p s = true -> length p <= length s.
Proof.
  revert s. induction p as [|a p IH]; intros [|b s]; simpl; try done;
    [lia|].
  intros [_ Hp]%andb_true_iff. apply IH in Hp. lia.
Qed.

Lemma replace_scan_length old new k s :
  length new <= length old ->
  length (replace_scan old new k s) + Nat.min k (length s) <= length s.
Proof.
  intros Hnew. revert k.
  induction s as [|c s IH]; intros k; simpl; [lia|].
  destruct k as [|k].
  - destruct (startswith old (c :: s)) eqn:E.
    + apply startswith_length in E. simpl in E.
      specialize (IH (length old - 1)). rewrite length_app. lia.
    + specialize (IH 0). simpl. lia.
  - specialize (IH k). lia.
Qed.

Lemma replace_length a old new s :
  length new <= length (a :: old) ->
  length (replace (a :: old) new s) <= length s.
Proof.
  intros Hnew. pose proof (replace_scan_length (a :: old) new 0 s Hnew).
  unfold replace. lia.
Qed.

Lemma rstrip_length s : length (rstrip s) <= length s.
Proof.
  induction s as [|c s IH]; simpl; [lia|].
  destruct (rstrip s); [destruct (isspace c)|]; simpl in *; lia.
Qed.

Lemma lstrip_by_length sp s : length (lstrip_by sp s) <= length s.
Proof.
  induction s as [|c s IH]; simpl; [lia|]. destruct (sp c); simpl; lia.
Qed.

Lemma lstrip_by_all sp s :
  Forall (fun c => sp c = true) s -> lstrip_by sp s = [].
Proof. induction 1 as [|c s Hc _ IH]; simpl; [done|]. by rewrite Hc. Qed.

Lemma clean_text_inv x s :
  clean_text x = Some s ->
  exists text, x = Some text /\ s = strip (replaced text) /\ s <> [].
Proof.
  destruct x as [text|]; [|done]. rewrite clean_text_Some.
  destruct (strip (replaced text)) as [|c t] eqn:E; [done|].
  intros [= <-]. exists text. by rewrite E.
Qed.

Lemma clean_text_Some_plain x s : clean_text x = Some s -> Forall plain s.
Proof.
  intros (text & _ & -> & _)%clean_text_inv.
  apply strip_Forall, replaced_plain.
Qed.

Lemma clean_text_Some_stripped x s :
  clean_text x = Some s ->
  strip s = s /\
  (forall c, head s = Some c -> isspace c = false) /\
  (forall c, last s = Some c -> isspace c = false).
Proof.
  intros (text & _ & -> & _)%clean_text_inv. split_and!.
  - apply strip_idemp.
  - intros c Hc. unfold strip in Hc.
    pose proof (rstrip_head (lstrip (replaced text))
                  (lstrip_by_head isspace (replaced text))) as Hh.
    destruct (rstrip (lstrip (replaced text))); simplify_eq/=. done.
  - intros c. apply rstrip_last.
Qed.

Lemma clean_text_plain_text text :
  Forall plain text ->
  clean_text (Some text)
  = if truthy (strip text) then Some (strip text) else None.
Proof. intros H. by rewrite clean_text_Some, replaced_fixed. Qed.

(** What [clean_text] returns holds no paragraph mark, no vertical tab,
    no carriage return and no replacement character. *)
Theorem clean_text_leaves_no_marker (x : option pystr) (s : pystr) :
  clean_text x = Some s -> Forall plain s.
Proof. apply clean_text_Some_plain. Qed.

Lemma clean_text_leaves_no_marker_witness :
  Forall plain (lit "a" ++ [LF] ++ lit "b").
Proof.
  apply (clean_text_leaves_no_marker
           (Some (lit " a" ++ [PILCROW] ++ lit "b" ++ [CR]))).
  vm_compute. reflexivity.
Defined.

(** What [clean_text] returns neither starts nor ends with white space,
    and stripping it again changes nothing. *)
Theorem clean_text_is_stripped (x : option pystr) (s : pystr) :
  clean_text x = Some s ->
  strip s = s /\
  (forall c, head s = Some c -> isspace c = false) /\
  (forall c, last s = Some c -> isspace c = false).
Proof. apply clean_text_Some_stripped. Qed.

Lemma clean_text_is_stripped_witness :
  strip (lit "a b") = lit "a b" /\
  (forall c, head (lit "a b") = Some c -> isspace c = false) /\
  (forall c, last (lit "a b") = Some c -> isspace c = false).
Proof.
  apply (clean_text_is_stripped (Some (lit "  a b" ++ [VT]))).
  vm_compute. reflexivity.
Defined.

(** A text without any of the four characters is only stripped. *)
Theorem clean_text_of_plain_text (text : pystr) :
  Forall plain text ->
  clean_text (Some text)
  = if truthy (strip text) then Some (strip text) else None.
Proof. apply clean_text_plain_text. Qed.

Lemma clean_text_of_plain_text_witness :
  clean_text (Some (lit "  a faint light "))
  = if truthy (strip (lit "  a faint light "))
    then Some (strip (lit "  a faint light ")) else None.
Proof.
  apply clean_text_of_plain_text.
  repeat constructor; discriminate.
Defined.

(** The texts [clean_text] returns unchanged are exactly the non-empty
    stripped texts without any of the four characters. *)
Theorem clean_text_fixed_points (s : pystr) :
  clean_text (Some s) = Some s <->
  s <> [] /\ Forall plain s /\ strip s = s.
Proof.
  split.
  - intros H. split_and!.
    + by apply clean_text_inv in H as (_ & _ & _ & ?).
    + by apply clean_text_Some_plain in H.
    + by apply clean_text_Some_stripped in H as [? _].
  - intros (Hne & Hp & Hs).
    rewrite clean_text_plain_text, Hs by done. by destruct s.
Qed.

(** Cleaning never makes a text longer. *)
Theorem clean_text_never_longer (text s : pystr) :
  clean_text (Some text) = Some s -> length s <= length text.
Proof.
  intros (t & [= <-] & -> & _)%clean_text_inv.
  unfold strip, lstrip, replaced.
  etransitivity; [apply rstrip_length|].
  etransitivity; [apply lstrip_by_length|].
  do 5 (etransitivity; [apply replace_length; simpl; lia|]).
  done.
Qed.

Lemma clean_text_never_longer_witness :
  length (lit "a" ++ [LF] ++ lit "b") <= length (lit "a" ++ [CR; LF] ++ lit "b ").
Proof.
  apply clean_text_never_longer. vm_compute. reflexivity.
Defined.

Lemma replace_char_Forall (P : N -> Prop) a b s :
  P b -> Forall (fun c => P c \/ c = a) s -> Forall P (replace [a] [b] s).
Proof.
  intros Hb Hs. unfold replace.
  induction Hs as [|c s Hc _ IH]; simpl; [constructor|].
  destruct (N.eqb_spec a c) as [<-|Hne]; simpl.
  - by constructor.
  - constructor; [|done]. by destruct Hc as [Hc| ->].
Qed.

(** A text of white space and paragraph marks only is cleaned to
    nothing. *)
Theorem clean_text_of_blank_text (text : pystr) :
  Forall blank text -> clean_text (Some text) = None.
Proof.
  intros Hb. rewrite clean_text_Some.
  assert (Hin : Forall (fun c => isspace c = true)
                  (replace [CR] [LF]
                     (replace [CR; LF] [LF]
                        (replace [VT] [LF]
                           (replace [PILCROW] [LF] text))))).
  { do 3 (apply replace_Forall; [by repeat constructor|]).
    by apply replace_char_Forall. }
  assert (Hsp : Forall (fun c => isspace c = true) (replaced text)).
  { unfold replaced. rewrite (replace_absent REPLACEMENT [] [DQUOTE]); [done|].
    eapply Forall_impl; [exact Hin|]. simpl. by intros c Hc ->. }
  unfold strip, lstrip. by rewrite (lstrip_by_all isspace _ Hsp).
Qed.

Lemma clean_text_of_blank_text_witness :
  clean_text (Some ([PILCROW; PILCROW] ++ lit " " ++ [CR; LF])) = None.
Proof.
  apply clean_text_of_blank_text.
  repeat constructor; (by right) || (by left).
Defined.

(** ** More on the store *)

Section StoreFacts.
Context {R : Type} `{Keyed R}.
Implicit Types t rs : list R.

Lemma has_key_elem_of k t : has_key k t = true <-> k ∈ key <$> t.
Proof.
  unfold has_key. rewrite list_elem_of_fmap. split.
  - intros (x & Hx & Hk)%List.existsb_exists. apply Z.eqb_eq in Hk.
    exists x. split; [done|by apply list_elem_of_In].
  - intros (x & -> & Hx). apply List.existsb_exists. exists x.
    split; [by apply list_elem_of_In|apply Z.eqb_refl].
Qed.

Lemma insert_or_ignore_prefix r t : t `prefix_of` insert_or_ignore r t.
Proof.
  unfold insert_or_ignore. destruct (has_key _ _); [done|].
  by apply prefix_app_r.
Qed.

Lemma insert_all_prefix rs t :
  t `prefix_of` foldl (fun t r => insert_or_ignore r t) t rs.
Proof.
  revert t. induction rs as [|r rs IH]; intros t; simpl; [done|].
  etrans; [apply (insert_or_ignore_prefix r)|apply IH].
Qed.

Lemma insert_all_length rs t :
  length (foldl (fun t r => insert_or_ignore r t) t rs)
  <= length t + length rs.
Proof.
  revert t. induction rs as [|r rs IH]; intros t; simpl; [lia|].
  etrans; [apply IH|]. unfold insert_or_ignore.
  destruct (has_key _ _); rewrite ?length_app; simpl; lia.
Qed.

Lemma insert_all_elem rs t x :
  x ∈ foldl (fun t r => insert_or_ignore r t) t rs -> x ∈ t \/ x ∈ rs.
Proof.
  revert t. induction rs as [|r rs IH]; intros t; simpl; [by left|].
  intros [Hx|Hx]%IH; [|right; by right].
  unfold insert_or_ignore in Hx. destruct (has_key _ _); [by left|].
  apply elem_of_app in Hx as [Hx|Hx]; [by left|].
  apply list_elem_of_singleton in Hx as ->. right. by left.
Qed.

Lemma has_key_prefix k t t' :
  t `prefix_of` t' -> has_key k t = true -> has_key k t' = true.
Proof.
  intros [u ->]. rewrite !has_key_elem_of, fmap_app, elem_of_app. by left.
Qed.

Lemma insert_all_has_keys rs t r :
  r ∈ rs ->
  has_key (key r) (foldl (fun t r => insert_or_ignore r t) t rs) = true.
Proof.
  revert t. induction rs as [|r' rs IH]; intros t Hr; simpl.
  - by apply elem_of_nil in Hr.
  - apply elem_of_cons in Hr as [->|Hr]; [|by apply IH].
    eapply has_key_prefix; [apply insert_all_prefix|].
    unfold insert_or_ignore. destruct (has_key (key r') t) eqn:E; [done|].
    apply has_key_elem_of. rewrite fmap_app, elem_of_app. right. by left.
Qed.

Lemma insert_all_present rs t :
  (forall r, r ∈ rs -> has_key (key r) t = true) ->
  foldl (fun t r => insert_or_ignore r t) t rs = t.
Proof.
  induction rs as [|r rs IH]; intros Hrs; simpl; [done|].
  unfold insert_or_ignore at 2. rewrite (Hrs r) by left.
  apply IH. intros r' Hr'. apply Hrs. by right.
Qed.

End StoreFacts.

(** ** More on the loops *)

Section LoopFacts.
Context {R X : Type} `{Keyed R}.
Implicit Types body : X -> stmt R unit.

Lemma settles_next body xs st :
  settles body -> fst (for_ xs body st) = Next tt.
Proof.
  intros Hb. revert st. induction xs as [|x xs IH]; intros st; simpl; [done|].
  destruct (Hb x st) as (o & st' & -> & Ho & _).
  destruct o as [[]| |e]; [apply IH|apply IH|by destruct (Ho e)].
Qed.

Lemma settles_grown body xs t0 id :
  settles body -> grown t0 (snd (for_ xs body (start t0 id))).
Proof.
  intros Hb.
  destruct (settles_replayed body xs t0 id Hb) as (Ht & Hc & _).
  unfold grown. rewrite Ht. split_and!.
  - apply insert_all_prefix.
  - apply insert_all_elem.
  - pose proof (insert_all_length
                  (executed (snd (for_ xs body (start t0 id)))) t0).
    lia.
Qed.

(** With identities that do not repeat, every accepted row is stored,
    and only then. *)
Lemma settles_all_stored body xs t0 id :
  settles body -> NoDup (key <$> t0) ->
  let st := snd (for_ xs body (start t0 id)) in
  table st = t0 ++ executed st <-> NoDup (key <$> (t0 ++ executed st)).
Proof.
  intros Hb Ht0 st.
  destruct (settles_replayed body xs t0 id Hb) as (Ht & _ & _).
  fold st in Ht. split.
  - intros <-. rewrite Ht. by apply insert_all_NoDup.
  - intros Hnd. rewrite Ht. by apply insert_all_fresh.
Qed.

(** What a loop accepts, counts and prints does not depend on the table
    it writes to, if that is so of its body. *)
Lemma for_same_outcome body xs st1 st2 :
  settles body ->
  (forall x s1 s2, same_outcome s1 s2 ->
     same_outcome (snd (body x s1)) (snd (body x s2))) ->
  same_outcome st1 st2 ->
  same_outcome (snd (for_ xs body st1)) (snd (for_ xs body st2)).
Proof.
  intros Hb Hsame.
  destruct (for_foldl body xs st1) as [-> _]; [by apply settles_no_raise|].
  destruct (for_foldl body xs st2) as [-> _]; [by apply settles_no_raise|].
  revert st1 st2. induction xs as [|x xs IH]; intros st1 st2 Hst; simpl;
    [done|].
  by apply IH, Hsame.
Qed.

Lemma for_reimport body xs t0 id :
  settles body ->
  (forall x s1 s2, same_outcome s1 s2 ->
     same_outcome (snd (body x s1)) (snd (body x s2))) ->
  table (snd (for_ xs body
                (start (table (snd (for_ xs body (start t0 id)))) id)))
  = table (snd (for_ xs body (start t0 id))).
Proof.
  intros Hb Hsame.
  set (st1 := snd (for_ xs body (start t0 id))).
  destruct (settles_replayed body xs t0 id Hb) as (Ht1 & _ & _).
  destruct (settles_replayed body xs (table st1) id Hb) as (Ht2 & _ & _).
  fold st1 in Ht1.
  destruct (for_same_outcome body xs (start (table st1) id) (start t0 id)
              Hb Hsame) as (He & _); [done|].
  fold st1 in He. rewrite Ht2, He.
  apply insert_all_present. intros r Hr. rewrite Ht1.
  by apply insert_all_has_keys.
Qed.

(** The table after a loop whose body decides each row by [dec]. *)
Lemma for_table body (dec : X -> option R) xs st :
  (forall x st, decides (body x) st (dec x)) ->
  table (snd (for_ xs body st))
  = foldl (fun t r => insert_or_ignore r t) (table st) (omap dec xs).
Proof.
  intros Hd.
  destruct (for_foldl body xs st) as [-> _].
  { intros x st' e. destruct (Hd x st') as (o & st'' & -> & Ho & _).
    apply Ho. }
  revert st. induction xs as [|x xs IH]; intros st; simpl; [done|].
  rewrite IH. destruct (Hd x st) as (o & st' & -> & _ & Hs). simpl.
  destruct (dec x) as [r|]; simpl.
  - by destruct Hs as (-> & _).
  - by destruct Hs as (-> & _).
Qed.

(** Every executed tuple satisfies what every decided tuple does. *)
Lemma for_executed_Forall (P : R -> Prop) body xs t0 id :
  (forall x st, exists d, decides (body x) st d /\
                          forall r, d = Some r -> P r) ->
  Forall P (executed (snd (for_ xs body (start t0 id)))).
Proof.
  intros Hd.
  destruct (for_foldl body xs (start t0 id)) as [-> _].
  { intros x st' e. destruct (Hd x st') as (d & (o & st'' & -> & Ho & _) & _).
    apply Ho. }
  apply (foldl_invariant (fun (_ : nat) st => Forall P (executed st)));
    [by constructor|].
  intros _ st x _ Hst.
  destruct (Hd x st) as (d & (o & st' & -> & _ & Hs) & HP). simpl.
  destruct d as [r|].
  - destruct Hs as (_ & -> & _). apply Forall_app. split; [done|].
    constructor; [by apply HP|constructor].
  - by destruct Hs as (_ & -> & _).
Qed.

End LoopFacts.

(** ** The table does not steer the importers *)

Ltac blind_cases :=
  intros (? & ? & ? & ? & ?);
  repeat match goal with st : state _ |- _ => destruct st end;
  simpl in *; subst; unfold same_outcome; unfold_row;
  repeat (case_match; simplify_eq/=; try done).

Lemma import_items_row_blind now r st1 st2 :
  same_outcome st1 st2 ->
  same_outcome (snd (import_items_row now r st1))
    (snd (import_items_row now r st2)).
Proof. blind_cases. Qed.

Lemma import_links_row_blind r st1 st2 :
  same_outcome st1 st2 ->
  same_outcome (snd (import_links_row r st1)) (snd (import_links_row r st2)).
Proof. blind_cases. Qed.

Lemma import_cliches_row_blind r st1 st2 :
  same_outcome st1 st2 ->
  same_outcome (snd (import_cliches_row r st1))
    (snd (import_cliches_row r st2)).
Proof. blind_cases. Qed.

Lemma import_names_row_blind r st1 st2 :
  same_outcome st1 st2 ->
  same_outcome (snd (import_names_row r st1)) (snd (import_names_row r st2)).
Proof. blind_cases. Qed.

Lemma import_literary_terms_row_blind r st1 st2 :
  same_outcome st1 st2 ->
  same_outcome (snd (import_literary_terms_row r st1))
    (snd (import_literary_terms_row r st2)).
Proof. blind_cases. Qed.

Lemma import_sources_row_blind r st1 st2 :
  same_outcome st1 st2 ->
  same_outcome (snd (import_sources_row r st1))
    (snd (import_sources_row r st2)).
Proof. unfold import_sources_row, index. blind_cases. Qed.

(** An import only adds rows: the rows the table had are still there, in
    place and unchanged, every further row comes from an executed
    [INSERT], and no more rows are added than were counted as imported. *)
Theorem tables_only_grow :
  (forall clock rows t0, grown t0 (import_items clock rows t0)) /\
  (forall rows t0, grown t0 (import_links rows t0)) /\
  (forall rows t0, grown t0 (import_cliches rows t0)) /\
  (forall rows t0, grown t0 (import_names rows t0)) /\
  (forall rows t0, grown t0 (import_literary_terms rows t0)) /\
  (forall rows t0, grown t0 (import_sources rows t0)).
Proof.
  split_and!; intros; apply settles_grown.
  - apply import_items_row_settles.
  - apply import_links_row_settles.
  - apply import_cliches_row_settles.
  - apply import_names_row_settles.
  - apply import_literary_terms_row_settles.
  - apply import_sources_row_settles.
Qed.

(** What an importer accepts, counts and prints is the same whatever the
    table holds: a conflict with a stored row is not noticed. *)
Theorem outcome_ignores_the_table :
  (forall clock rows t t',
     same_outcome (import_items clock rows t) (import_items clock rows t')) /\
  (forall rows t t',
     same_outcome (import_links rows t) (import_links rows t')) /\
  (forall rows t t',
     same_outcome (import_cliches rows t) (import_cliches rows t')) /\
  (forall rows t t',
     same_outcome (import_names rows t) (import_names rows t')) /\
  (forall rows t t',
     same_outcome (import_literary_terms rows t)
       (import_literary_terms rows t')) /\
  (forall rows t t',
     same_outcome (import_sources rows t) (import_sources rows t')).
Proof.
  split_and!; intros; apply for_same_outcome; try done.
  - apply import_items_row_settles.
  - intros [now r] s1 s2. apply import_items_row_blind.
  - apply import_links_row_settles.
  - intros r. apply import_links_row_blind.
  - apply import_cliches_row_settles.
  - intros r. apply import_cliches_row_blind.
  - apply import_names_row_settles.
  - intros r. apply import_names_row_blind.
  - apply import_literary_terms_row_settles.
  - intros r. apply import_literary_terms_row_blind.
  - apply import_sources_row_settles.
  - intros r. apply import_sources_row_blind.
Qed.

(** Importing the same rows again, into the table the first import left,
    changes nothing in the table; this holds for the Source importer too,
    whose keys start at 1000 again. *)
Theorem second_import_changes_nothing :
  (forall clock rows t0,
     table (import_items clock rows (table (import_items clock rows t0)))
     = table (import_items clock rows t0)) /\
  (forall rows t0,
     table (import_links rows (table (import_links rows t0)))
     = table (import_links rows t0)) /\
  (forall rows t0,
     table (import_cliches rows (table (import_cliches rows t0)))
     = table (import_cliches rows t0)) /\
  (forall rows t0,
     table (import_names rows (table (import_names rows t0)))
     = table (import_names rows t0)) /\
  (forall rows t0,
     table (import_literary_terms rows
              (table (import_literary_terms rows t0)))
     = table (import_literary_terms rows t0)) /\
  (forall rows t0,
     table (import_sources rows (table (import_sources rows t0)))
     = table (import_sources rows t0)).
Proof.
  split_and!; intros; apply for_reimport.
  - apply import_items_row_settles.
  - intros [now r] s1 s2. apply import_items_row_blind.
  - apply import_links_row_settles.
  - intros r. apply import_links_row_blind.
  - apply import_cliches_row_settles.
  - intros r. apply import_cliches_row_blind.
  - apply import_names_row_settles.
  - intros r. apply import_names_row_blind.
  - apply import_literary_terms_row_settles.
  - intros r. apply import_literary_terms_row_blind.
  - apply import_sources_row_settles.
  - intros r. apply import_sources_row_blind.
Qed.

(** ** An input in two parts *)

Lemma item_of_row_clock now now' r : item_of_row now r = item_of_row now' r.
Proof.
  unfold item_of_row.
  destruct (length r <? 10) eqn:Hlen; [done|]. apply Nat.ltb_ge in Hlen.
  destruct (r !! 9) as [f|] eqn:Hf; [|apply lookup_ge_None in Hf; lia].
  unfold field_or. by rewrite Hf.
Qed.

Lemma omap_items_clock (clock : nat -> pystr) rows :
  omap (fun x : pystr * row => item_of_row (fst x) (snd x))
    (imap (fun i r => (clock i, r)) rows)
  = omap (item_of_row []) rows.
Proof.
  revert clock. induction rows as [|r rows IH]; intros clock; [done|].
  rewrite imap_cons. simpl. rewrite (item_of_row_clock (clock 0) []).
  specialize (IH (clock ∘ S)). unfold omap in IH.
  change (imap ((fun i r0 => (clock i, r0)) ∘ S) rows)
    with (imap (fun i (r0 : row) => ((clock ∘ S) i, r0)) rows).
  by rewrite IH.
Qed.

Lemma import_items_table clock rows t0 :
  table (import_items clock rows t0)
  = foldl (fun t r => insert_or_ignore r t) t0 (omap (item_of_row []) rows).
Proof.
  unfold import_items.
  rewrite (for_table _ (fun x => item_of_row (fst x) (snd x))).
  - by rewrite omap_items_clock.
  - intros [now r] st. apply import_items_row_spec.
Qed.

Lemma import_links_table rows t0 :
  table (import_links rows t0)
  = foldl (fun t r => insert_or_ignore r t) t0 (omap link_of_row rows).
Proof.
  unfold import_links. rewrite (for_table _ link_of_row); [done|].
  intros r st. apply import_links_row_spec.
Qed.

Lemma import_cliches_table rows t0 :
  table (import_cliches rows t0)
  = foldl (fun t r => insert_or_ignore r t) t0 (omap cliche_of_row rows).
Proof.
  unfold import_cliches. rewrite (for_table _ cliche_of_row); [done|].
  intros r st. apply import_cliches_row_spec.
Qed.

Lemma import_names_table rows t0 :
  table (import_names rows t0)
  = foldl (fun t r => insert_or_ignore r t) t0 (omap name_of_row rows).
Proof.
  unfold import_names. rewrite (for_table _ name_of_row); [done|].
  intros r st. apply import_names_row_spec.
Qed.

Lemma import_literary_terms_table rows t0 :
  table (import_literary_terms rows t0)
  = foldl (fun t r => insert_or_ignore r t) t0 (omap term_of_row rows).
Proof.
  unfold import_literary_terms. rewrite (for_table _ term_of_row); [done|].
  intros r st. apply import_literary_terms_row_spec.
Qed.

(** For the five kinds that read their identity from the row, importing
    an input at once gives the table that importing its first part and
    then, into the result, its second part gives. *)
Theorem input_in_two_parts :
  (forall clock clock' rows1 rows2 t0,
     table (import_items clock (rows1 ++ rows2) t0)
     = table (import_items clock' rows2
                (table (import_items clock rows1 t0)))) /\
  (forall rows1 rows2 t0,
     table (import_links (rows1 ++ rows2) t0)
     = table (import_links rows2 (table (import_links rows1 t0)))) /\
  (forall rows1 rows2 t0,
     table (import_cliches (rows1 ++ rows2) t0)
     = table (import_cliches rows2 (table (import_cliches rows1 t0)))) /\
  (forall rows1 rows2 t0,
     table (import_names (rows1 ++ rows2) t0)
     = table (import_names rows2 (table (import_names rows1 t0)))) /\
  (forall rows1 rows2 t0,
     table (import_literary_terms (rows1 ++ rows2) t0)
     = table (import_literary_terms rows2
                (table (import_literary_terms rows1 t0)))).
Proof.
  split_and!; intros.
  - by rewrite !import_items_table, omap_app, foldl_app.
  - by rewrite !import_links_table, omap_app, foldl_app.
  - by rewrite !import_cliches_table, omap_app, foldl_app.
  - by rewrite !import_names_table, omap_app, foldl_app.
  - by rewrite !import_literary_terms_table, omap_app, foldl_app.
Qed.

(** ** A second run of [import_sources] *)

Lemma issued_app first n m :
  issued first (n + m) = issued first n ++ issued (first + Z.of_nat n) m.
Proof.
  unfold issued. rewrite seq_app, fmap_app. f_equal. simpl.
  replace (seq n m) with (Nat.add n <$> seq 0 m)
    by (rewrite fmap_add_seq; f_equal; lia).
  rewrite <- list_fmap_compose.
  apply list_fmap_ext. intros _ i _. simpl. lia.
Qed.

Lemma issued_length first n : length (issued first n) = n.
Proof. unfold issued. by rewrite length_fmap, length_seq. Qed.

Lemma import_sources_issued rows t0 :
  let st := import_sources rows t0 in
  Source.source_id <$> executed st = issued 1000 (length (executed st)) /\
  count st = Z.of_nat (length (executed st)).
Proof.
  intros st. subst st. unfold import_sources.
  destruct (for_foldl import_sources_row rows (start t0 1000)) as [-> _];
    [apply settles_no_raise, import_sources_row_settles|].
  enough (Hinv :
    source_id (foldl (fun st x => snd (import_sources_row x st))
                 (start t0 1000) rows)
    = (1000 + count (foldl (fun st x => snd (import_sources_row x st))
                       (start t0 1000) rows))%Z /\
    Source.source_id <$>
      executed (foldl (fun st x => snd (import_sources_row x st))
                  (start t0 1000) rows)
    = issued 1000
        (length (executed (foldl (fun st x => snd (import_sources_row x st))
                             (start t0 1000) rows))) /\
    count (foldl (fun st x => snd (import_sources_row x st))
             (start t0 1000) rows)
    = Z.of_nat
        (length (executed (foldl (fun st x => snd (import_sources_row x st))
                             (start t0 1000) rows)))) by tauto.
  apply (foldl_invariant (fun (_ : nat) st =>
    source_id st = (1000 + count st)%Z /\
    Source.source_id <$> executed st = issued 1000 (length (executed st)) /\
    count st = Z.of_nat (length (executed st)))); [done|].
  intros _ st r _ (Hid & Hk & Hcnt). simpl.
  destruct (import_sources_row_spec r st) as (o & st' & -> & _ & Hs).
  simpl. destruct (source_of_row (source_id st) r) as [x|] eqn:Ex.
  - destruct Hs as [(_ & He & Hc' & _) Hid'].
    apply source_of_row_id in Ex as [Ex _].
    rewrite He, fmap_app, length_app, Nat.add_1_r, issued_snoc, Hk.
    simpl. rewrite Ex. split_and!; [lia| |lia]. do 2 f_equal. lia.
  - destruct Hs as (_ & He & Hc' & _ & Hid').
    rewrite He. split_and!; [lia|done|lia].
Qed.

(** [import_sources] starts its keys at 1000 on every call.  Called on
    the table a first call filled from nothing, it adds only the rows it
    accepts beyond the number the first call accepted; the earlier ones
    meet a stored key and are dropped, though counted as imported. *)
Theorem second_sources_run_drops_the_first_rows rows1 rows2 :
  let st1 := import_sources rows1 [] in
  let st2 := import_sources rows2 (table st1) in
  table st2 = table st1 ++ drop (Z.to_nat (count st1)) (executed st2).
Proof.
  intros st1 st2.
  destruct (import_sources_issued rows1 []) as [Hk1 Hc1].
  destruct (import_sources_issued rows2 (table st1)) as [Hk2 Hc2].
  fold st1 in Hk1, Hc1. fold st2 in Hk2, Hc2.
  destruct (settles_replayed import_sources_row rows1 [] 1000
              import_sources_row_settles) as (Ht1 & _ & _).
  destruct (settles_replayed import_sources_row rows2 (table st1) 1000
              import_sources_row_settles) as (Ht2 & _ & _).
  change (snd (for_ rows1 import_sources_row (start [] 1000)))
    with st1 in Ht1.
  change (snd (for_ rows2 import_sources_row (start (table st1) 1000)))
    with st2 in Ht2.
  assert (Hs1 : table st1 = executed st1).
  { rewrite Ht1. apply (insert_all_fresh _ []). simpl. rewrite Hk1.
    apply issued_NoDup. }
  set (e1 := executed st1) in *. set (e2 := executed st2) in *.
  rewrite Hc1, Nat2Z.id. rewrite Ht2, Hs1.
  rewrite <- (take_drop (length e1) e2) at 1. rewrite foldl_app.
  assert (Hkeys : forall n, Source.source_id <$> take n e2
                            = issued 1000 (Nat.min n (length e2))).
  { intros n. rewrite fmap_take, Hk2.
    destruct (Nat.le_ge_cases n (length e2)) as [Hle|Hge].
    - replace (length e2) with (n + (length e2 - n)) at 1 by lia.
      rewrite issued_app, take_app_length'; [|by rewrite issued_length].
      f_equal. lia.
    - rewrite take_ge by (rewrite issued_length; lia). f_equal. lia. }
  rewrite (insert_all_present (take (length e1) e2) e1).
  - apply insert_all_fresh.
    change (NoDup (Source.source_id <$> (e1 ++ drop (length e1) e2))).
    rewrite fmap_app, fmap_drop, Hk1, Hk2.
    destruct (Nat.le_ge_cases (length e1) (length e2)) as [Hle|Hge].
    + replace (length e2) with (length e1 + (length e2 - length e1))
        at 1 by lia.
      rewrite issued_app, drop_app_length'; [|by rewrite issued_length].
      rewrite <- issued_app. apply issued_NoDup.
    + rewrite drop_ge by (rewrite issued_length; lia).
      rewrite app_nil_r. apply issued_NoDup.
  - intros r Hr. apply has_key_elem_of.
    change (key r ∈ Source.source_id <$> e1). rewrite Hk1.
    assert (Hin : key r ∈ Source.source_id <$> take (length e1) e2)
      by (by apply list_elem_of_fmap_2).
    rewrite Hkeys in Hin.
    replace (length e1)
      with (Nat.min (length e1) (length e2)
            + (length e1 - Nat.min (length e1) (length e2))) by lia.
    rewrite issued_app, elem_of_app. by left.
Qed.

(** ** The rows an import adds *)

Lemma identity_nonzero r i n : identity r i = Some n -> n <> 0%Z.
Proof. intros (f & _ & _ & _ & Hn)%identity_Some. done. Qed.

Lemma name_identity_nonzero r n : name_identity r = Some n -> n <> 0%Z.
Proof.
  intros [(f & _ & _ & _ & Hn)|(f & g & _ & _ & _ & _ & _ & _ & Hn)]
    %name_identity_Some; done.
Qed.

Lemma cleaned_tidy r i : tidy (cleaned r i).
Proof.
  unfold cleaned, tidy. destruct (r !! i) as [f|]; [|done].
  destruct (clean_text (Some f)) as [s|] eqn:E; [|done]. split_and!.
  - by apply clean_text_inv in E as (_ & _ & _ & ?).
  - by apply clean_text_Some_plain in E.
  - by apply clean_text_Some_stripped in E as [? _].
Qed.

Section NewRows.
Context {R X : Type} `{Keyed R}.

Lemma new_rows (P : R -> Prop) (body : X -> stmt R unit) xs t0 id x :
  (forall x st, exists d, decides (body x) st d /\
                          forall r, d = Some r -> P r) ->
  x ∈ table (snd (for_ xs body (start t0 id))) -> x ∈ t0 \/ P x.
Proof.
  intros Hd Hx.
  assert (Hb : settles body).
  { intros y st. destruct (Hd y st) as (d & (o & st' & E & Ho & Hs) & _).
    exists o, st'. split_and!; [done|done|].
    destruct d; [left; by eexists|by right]. }
  destruct (settles_grown body xs t0 id Hb) as (_ & Hin & _).
  destruct (Hin x Hx) as [?|Hex]; [by left|right].
  pose proof (for_executed_Forall P body xs t0 id Hd) as HP.
  rewrite Forall_forall in HP. by apply HP.
Qed.

End NewRows.

(** Every row an import of Items, Cliches, Names or Literary Terms adds
    to its table has an identity other than zero that fits SQLite's
    64-bit integers. *)
Theorem added_rows_have_usable_identities :
  (forall clock rows t0 x, x ∈ table (import_items clock rows t0) ->
     x ∈ t0 \/ Item.item_id x <> 0%Z /\ sqlite_int (Item.item_id x) = true) /\
  (forall rows t0 x, x ∈ table (import_cliches rows t0) ->
     x ∈ t0 \/
     Cliche.cliche_id x <> 0%Z /\ sqlite_int (Cliche.cliche_id x) = true) /\
  (forall rows t0 x, x ∈ table (import_names rows t0) ->
     x ∈ t0 \/ Name.name_id x <> 0%Z /\ sqlite_int (Name.name_id x) = true) /\
  (forall rows t0 x, x ∈ table (import_literary_terms rows t0) ->
     x ∈ t0 \/ Term.term_id x <> 0%Z /\ sqlite_int (Term.term_id x) = true).
Proof.
  split_and!.
  - intros clock rows t0 x. unfold import_items.
    apply (new_rows (fun y => Item.item_id y <> 0%Z /\
                              sqlite_int (Item.item_id y) = true)).
    intros [now r] st. exists (item_of_row now r).
    split; [apply import_items_row_spec|]. unfold item_of_row.
    intros y Hy. repeat case_match; simplify_eq/=.
    split; [by eapply identity_nonzero|done].
  - intros rows t0 x.
    apply (new_rows (fun y => Cliche.cliche_id y <> 0%Z /\
                              sqlite_int (Cliche.cliche_id y) = true)).
    intros r st. exists (cliche_of_row r).
    split; [apply import_cliches_row_spec|]. unfold cliche_of_row.
    intros y Hy. repeat case_match; simplify_eq/=.
    split; [by eapply identity_nonzero|done].
  - intros rows t0 x.
    apply (new_rows (fun y => Name.name_id y <> 0%Z /\
                              sqlite_int (Name.name_id y) = true)).
    intros r st. exists (name_of_row r).
    split; [apply import_names_row_spec|]. unfold name_of_row.
    intros y Hy. repeat case_match; simplify_eq/=.
    split; [by eapply name_identity_nonzero|done].
  - intros rows t0 x.
    apply (new_rows (fun y => Term.term_id y <> 0%Z /\
                              sqlite_int (Term.term_id y) = true)).
    intros r st. exists (term_of_row r).
    split; [apply import_literary_terms_row_spec|]. unfold term_of_row.
    intros y Hy. repeat case_match; simplify_eq/=.
    split; [by eapply identity_nonzero|done].
Qed.

Lemma added_rows_have_usable_identities_witness :
  let x := Cliche.mk (-5) (lit "worn") None in
  x ∈ [] \/
  Cliche.cliche_id x <> 0%Z /\ sqlite_int (Cliche.cliche_id x) = true.
Proof.
  intros x.
  apply (proj1 (proj2 added_rows_have_usable_identities)
           [[lit "-5"; lit "worn"]] [] x).
  vm_compute. left.
Defined.

(** Every row [import_links] adds has a link, a source and a destination
    identity other than zero, all within SQLite's 64-bit integers, and
    the link type [related]; whether the two items exist is not looked
    at. *)
Theorem added_links_are_related (rows : list row) (t0 : list Link.t)
    (x : Link.t) :
  x ∈ table (import_links rows t0) ->
  x ∈ t0 \/
  Link.link_id x <> 0%Z /\ Link.source_item_id x <> 0%Z /\
  Link.destination_item_id x <> 0%Z /\
  forallb sqlite_int
    [Link.link_id x; Link.source_item_id x; Link.destination_item_id x]
  = true /\
  Link.link_type x = lit "related".
Proof.
  apply (new_rows (fun y =>
    Link.link_id y <> 0%Z /\ Link.source_item_id y <> 0%Z /\
    Link.destination_item_id y <> 0%Z /\
    forallb sqlite_int
      [Link.link_id y; Link.source_item_id y; Link.destination_item_id y]
    = true /\
    Link.link_type y = lit "related")).
  intros r st. exists (link_of_row r).
  split; [apply import_links_row_spec|]. unfold link_of_row.
  intros y Hy. repeat case_match; simplify_eq/=.
  repeat match goal with
         | H : _ && _ = true |- _ => apply andb_true_iff in H as [? ?]
         | H : negb _ = true |- _ => apply negb_true_iff, Z.eqb_neq in H
         end.
  split_and!; try done.
  repeat match goal with
         | H : sqlite_int _ = true |- _ => rewrite H; clear H
         end.
  done.
Qed.

Lemma added_links_are_related_witness :
  let x := Link.mk 5 1 2 (lit "related") in
  x ∈ [] \/
  Link.link_id x <> 0%Z /\ Link.source_item_id x <> 0%Z /\
  Link.destination_item_id x <> 0%Z /\
  forallb sqlite_int
    [Link.link_id x; Link.source_item_id x; Link.destination_item_id x]
  = true /\
  Link.link_type x = lit "related".
Proof.
  intros x.
  apply (added_links_are_related [[lit "5"; lit "1"; lit "2"]] [] x).
  vm_compute. left.
Defined.

(** Every row [import_sources] adds has a key from 1000 on and a title
    that is not empty, and its author is absent rather than the empty
    string. *)
Theorem added_sources_have_titles (rows : list row) (t0 : list Source.t)
    (x : Source.t) :
  x ∈ table (import_sources rows t0) ->
  x ∈ t0 \/
  (1000 <= Source.source_id x)%Z /\ Source.title x <> [] /\
  Source.author x <> Some [].
Proof.
  intros Hx.
  destruct (settles_grown import_sources_row rows t0 1000
              import_sources_row_settles) as (_ & Hin & _).
  destruct (Hin x Hx) as [?|Hex]; [by left|right].
  change (x ∈ executed (import_sources rows t0)) in Hex. split.
  - destruct (import_sources_issued rows t0) as [Hk _].
    apply (list_elem_of_fmap_2 Source.source_id) in Hex.
    rewrite Hk in Hex. unfold issued in Hex.
    apply list_elem_of_fmap in Hex as (i & -> & _). lia.
  - assert (HP : Forall
      (fun y => Source.title y <> [] /\ Source.author y <> Some [])
      (executed (import_sources rows t0))).
    { apply for_executed_Forall. intros r st.
      exists (source_of_row (source_id st) r). split.
      - destruct (import_sources_row_spec r st) as (o & st' & E & Ho & Hs).
        exists o, st'. split_and!; [done|done|].
        destruct (source_of_row (source_id st) r); [apply Hs|apply Hs].
      - unfold source_of_row. intros y Hy.
        repeat case_match; simplify_eq/=;
          (split; [by destruct (source_title r)
                  |first [done|by intros [= ->]]]). }
    rewrite Forall_forall in HP. by apply HP.
Qed.

Lemma added_sources_have_titles_witness :
  let x := Source.mk 1000 (lit "Anthology") None (Some (lit "Anthology")) in
  x ∈ [] \/
  (1000 <= Source.source_id x)%Z /\ Source.title x <> [] /\
  Source.author x <> Some [].
Proof.
  intros x.
  apply (added_sources_have_titles [[lit ""; lit "Anthology"]] [] x).
  vm_compute. left.
Defined.

(** The free texts of the rows an import adds are as [clean_text] leaves
    them, absent or not empty, stripped and without the four characters:
    the definition, derivation and appendices of an Item, the definition
    of a Cliche, the definition, examples and notes of a Literary Term,
    whose type is always absent. *)
Theorem added_texts_are_clean :
  (forall clock rows t0 x, x ∈ table (import_items clock rows t0) ->
     x ∈ t0 \/
     tidy (Item.definition x) /\ tidy (Item.derivation x) /\
     tidy (Item.appendicies x)) /\
  (forall rows t0 x, x ∈ table (import_cliches rows t0) ->
     x ∈ t0 \/ tidy (Cliche.definition x)) /\
  (forall rows t0 x, x ∈ table (import_literary_terms rows t0) ->
     x ∈ t0 \/
     Term.type x = None /\ tidy (Term.definition x) /\
     tidy (Term.examples x) /\ tidy (Term.notes x)).
Proof.
  split_and!.
  - intros clock rows t0 x. unfold import_items.
    apply (new_rows (fun y => tidy (Item.definition y) /\
                              tidy (Item.derivation y) /\
                              tidy (Item.appendicies y))).
    intros [now r] st. exists (item_of_row now r).
    split; [apply import_items_row_spec|]. unfold item_of_row.
    intros y Hy. repeat case_match; simplify_eq/=.
    split_and!; apply cleaned_tidy.
  - intros rows t0 x.
    apply (new_rows (fun y => tidy (Cliche.definition y))).
    intros r st. exists (cliche_of_row r).
    split; [apply import_cliches_row_spec|]. unfold cliche_of_row.
    intros y Hy. repeat case_match; simplify_eq/=. apply cleaned_tidy.
  - intros rows t0 x.
    apply (new_rows (fun y => Term.type y = None /\
                              tidy (Term.definition y) /\
                              tidy (Term.examples y) /\
                              tidy (Term.notes y))).
    intros r st. exists (term_of_row r).
    split; [apply import_literary_terms_row_spec|]. unfold term_of_row.
    intros y Hy. repeat case_match; simplify_eq/=.
    split_and!; try done; apply cleaned_tidy.
Qed.

Lemma added_texts_are_clean_witness :
  let x := Cliche.mk 7 (lit "worn") (Some (lit "a" ++ [LF] ++ lit "b")) in
  x ∈ [] \/ tidy (Cliche.definition x).
Proof.
  intros x.
  apply (proj1 (proj2 added_texts_are_clean)
           [[lit "7"; lit "worn"; lit " a" ++ [PILCROW] ++ lit "b "]] [] x).
  vm_compute. left.
Defined.

(** ** What [import_items] prints for a rejected row *)

Lemma report_lines_snoc out l :
  report_lines (out ++ [l])
  = report_lines out + if shows_row l then 0 else 1.
Proof.
  unfold report_lines. rewrite List.filter_app, length_app. simpl.
  by destruct (shows_row l).
Qed.

Lemma import_items_row_reports now r st :
  (Z.of_nat (report_lines (stdout (snd (import_items_row now r st))))
   - errors (snd (import_items_row now r st))
   = Z.of_nat (report_lines (stdout st)) - errors st)%Z.
Proof.
  unfold_row.
  repeat (case_match; simplify_eq/=; try done);
    rewrite ?report_lines_snoc; simpl; lia.
Qed.

(** [import_items] reports every rejection: besides the rows shown after
    an exception, it has printed as many lines as it has counted errors,
    one for each rejected row and none for an accepted one. *)
Theorem import_items_reports_every_rejection (clock : nat -> pystr)
    (rows : list row) (t : list Item.t) :
  Z.of_nat (report_lines (stdout (import_items clock rows t)))
  = errors (import_items clock rows t).
Proof.
  unfold import_items.
  set (body := fun x : pystr * row => import_items_row (fst x) (snd x)).
  destruct (for_foldl body (imap (fun i r => (clock i, r)) rows)
              (start t 0)) as [-> _];
    [apply settles_no_raise, import_items_row_settles|].
  apply (foldl_invariant (fun (_ : nat) st =>
    Z.of_nat (report_lines (stdout st)) = errors st)); [done|].
  intros _ st [now r] _ Hst. subst body. simpl.
  pose proof (import_items_row_reports now r st). lia.
Qed.

(** An Item row of ten fields or more whose first field is not empty and
    is not an integer, or is an integer outside SQLite's 64 bits, is
    rejected by the exception handler: it prints the exception, and the
    first three fields of the row if fewer than five rows, this one
    included, have been rejected so far. *)
Theorem import_items_fault_lines (now : pystr) (r : row)
    (st : state Item.t) (f : pystr) :
  10 <= length r -> r !! 0 = Some f -> f <> [] ->
  let st' := snd (import_items_row now r st) in
  let shown :=
    if (errors st + 1 <? 5)%Z then [RowData (take 3 r)] else [] in
  (parse_int f = None ->
   rejected st st' /\
   stdout st' = stdout st ++ ErrorImporting Items (ValueError f) :: shown) /\
  (forall n, parse_int f = Some n -> sqlite_int n = false ->
   rejected st st' /\
   stdout st' = stdout st ++ ErrorImporting Items OverflowError :: shown).
Proof.
  intros Hlen Hf Hne st' shown. subst st' shown.
  unfold import_items_row, try_except, bind, eval, int_or_None, index, int.
  replace (length r <? 10) with false by (symmetry; apply Nat.ltb_ge; lia).
  rewrite Hf. destruct f as [|c f]; [done|]. simpl. split.
  - intros ->. unfold rejected. simpl.
    destruct (errors st + 1 <? 5)%Z; simpl; by rewrite <- ?app_assoc.
  - intros n -> Hn. unfold rejected.
    destruct n as [|p|p]; [done| |]; simpl;
      unfold execute, raise; simpl; rewrite Hn; simpl;
      destruct (errors st + 1 <? 5)%Z; simpl; by rewrite <- ?app_assoc.
Qed.

Lemma import_items_fault_lines_witness :
  let r := replicate 10 (lit "x") in
  let st' := snd (import_items_row [] r (start [] 0)) in
  rejected (start [] 0) st' /\
  stdout st' = [ErrorImporting Items (ValueError (lit "x"));
                RowData (take 3 r)].
Proof.
  intros r.
  apply (proj1 (import_items_fault_lines [] r (start [] 0) (lit "x")
                  ltac:(simpl; lia) eq_refl ltac:(discriminate))).
  vm_compute. reflexivity.
Defined.

(** ** The columns of an accepted row *)

(** An accepted Item row has ten fields or more and is inserted column
    for column: the identity is the integer of the first field, the word
    and the category are the second and third fields as they are, the
    definition, derivation and appendices are the next three fields
    cleaned, the source, its page and the mark are the next three fields
    as they are, never absent, the empty string included, and the time
    of modification is the tenth field. *)
Theorem accepted_item_columns (now : pystr) (r : row) (st : state Item.t) :
  count (snd (import_items_row now r st)) = (count st + 1)%Z ->
  exists f0 f1 f2 f3 f4 f5 f6 f7 f8 f9 rest n,
    r = f0 :: f1 :: f2 :: f3 :: f4 :: f5 :: f6 :: f7 :: f8 :: f9 :: rest /\
    parse_int f0 = Some n /\
    accepted_as
      (Item.mk n f1 f2 (clean_text (Some f3)) (clean_text (Some f4))
         (clean_text (Some f5)) (Some f6) (Some f7) (Some f8) f9)
      st (snd (import_items_row now r st)).
Proof.
  intros Hc.
  pose proof (import_items_row_spec now r st) as Hs.
  apply (decides_counted _ _ _ Hs) in Hc as [x Hx].
  rewrite Hx in Hs. apply decides_Some in Hs.
  revert Hx. unfold item_of_row.
  destruct (length r <? 10) eqn:Hlen; [done|]. apply Nat.ltb_ge in Hlen.
  do 10 (destruct r as [|? r]; [simpl in Hlen; lia|]).
  destruct (identity _ 0) as [n|] eqn:Hn; [|done].
  apply identity_Some in Hn as (f & [= <-] & _ & Hp & _).
  destruct (sqlite_int n); [|done]. intros [= <-].
  do 11 eexists. exists n. split_and!; [reflexivity|done|exact Hs].
Qed.

Lemma accepted_item_columns_witness :
  let r := replicate 10 (lit "1") in
  exists f0 f1 f2 f3 f4 f5 f6 f7 f8 f9 rest n,
    r = f0 :: f1 :: f2 :: f3 :: f4 :: f5 :: f6 :: f7 :: f8 :: f9 :: rest /\
    parse_int f0 = Some n /\
    accepted_as
      (Item.mk n f1 f2 (clean_text (Some f3)) (clean_text (Some f4))
         (clean_text (Some f5)) (Some f6) (Some f7) (Some f8) f9)
      (start [] 0) (snd (import_items_row [] r (start [] 0))).
Proof.
  intros r. apply (accepted_item_columns [] r (start [] 0)).
  vm_compute. reflexivity.
Defined.

(** An accepted Source row is inserted under the current key with its
    second field as notes; its title is the third field, or the second
    when there is no third; its author is the first field, absent when
    that is empty; and the key moves on by one. *)
Theorem accepted_source_columns (r : row) (st : state Source.t) :
  count (snd (import_sources_row r st)) = (count st + 1)%Z ->
  exists f0 f1,
    r !! 0 = Some f0 /\ r !! 1 = Some f1 /\
    accepted_as
      (Source.mk (source_id st)
         (match r !! 2 with Some f2 => f2 | None => f1 end)
         (if truthy f0 then Some f0 else None)
         (Some f1))
      st (snd (import_sources_row r st)) /\
    source_id (snd (import_sources_row r st)) = (source_id st + 1)%Z.
Proof.
  intros Hc.
  destruct (import_sources_row_spec r st) as (o & st' & E & _ & Hs).
  rewrite E in *. simpl in *.
  destruct (source_of_row (source_id st) r) as [x|] eqn:Hx; cycle 1.
  { destruct Hs as (_ & _ & Hc' & _). lia. }
  destruct Hs as [Hs Hid]. revert Hx. unfold source_of_row, source_title.
  destruct (length r <? 2) eqn:Hlen; [done|]. apply Nat.ltb_ge in Hlen.
  destruct r as [|f0 [|f1 r]]; try (simpl in Hlen; lia).
  unfold field_or. simpl.
  repeat case_match; try done; intros [= <-]; exists f0, f1;
    match goal with Ht : truthy f0 = _ |- _ => rewrite Ht end; done.
Qed.

Lemma accepted_source_columns_witness :
  let r := [lit ""; lit "Anthology"] in
  exists f0 f1,
    r !! 0 = Some f0 /\ r !! 1 = Some f1 /\
    accepted_as
      (Source.mk 1000
         (match r !! 2 with Some f2 => f2 | None => f1 end)
         (if truthy f0 then Some f0 else None)
         (Some f1))
      (start [] 1000) (snd (import_sources_row r (start [] 1000))) /\
    source_id (snd (import_sources_row r (start [] 1000))) = (1000 + 1)%Z.
Proof.
  intros r. apply (accepted_source_columns r (start [] 1000)).
  vm_compute. reflexivity.
Defined.

(** ** Rejected rows *)









(** ** Rows that share an identity *)

Section FirstKept.
Context {R X : Type} `{Keyed R}.

Lemma for_executed (body : X -> stmt R unit) (dec : X -> option R) xs st :
  (forall x st, decides (body x) st (dec x)) ->
  executed (snd (for_ xs body st)) = executed st ++ omap dec xs.
Proof.
  intros Hd.
  destruct (for_foldl body xs st) as [-> _].
  { intros x st' e. destruct (Hd x st') as (o & st'' & -> & Ho & _).
    apply Ho. }
  revert st. induction xs as [|x xs IH]; intros st; simpl.
  - by rewrite app_nil_r.
  - rewrite IH. destruct (Hd x st) as (o & st' & -> & _ & Hs). simpl.
    destruct (dec x) as [r|]; simpl.
    + destruct Hs as (_ & -> & _). by rewrite <- app_assoc.
    + by destruct Hs as (_ & -> & _).
Qed.

Lemma decides_settles (body : X -> stmt R unit) (dec : X -> option R) :
  (forall x st, decides (body x) st (dec x)) -> settles body.
Proof.
  intros Hd x st. destruct (Hd x st) as (o & st' & E & Ho & Hs).
  exists o, st'. split_and!; [done|done|].
  destruct (dec x); [left; by eexists|by right].
Qed.

Lemma select_absent k (t : list R) : k ∉ key <$> t -> select k t = [].
Proof.
  intros Hk. destruct (select k t) as [|x u] eqn:E; [done|]. exfalso.
  apply Hk, has_key_elem_of, has_key_select. by rewrite E.
Qed.

Lemma first_kept_intro (dec : X -> option R) xs t0 n st :
  NoDup (key <$> t0) -> replayed t0 n st -> executed st = omap dec xs ->
  first_kept dec xs t0 st.
Proof.
  intros Ht0 (Ht & Hc & _) He. rewrite He in Ht, Hc.
  assert (Hsel : forall k, select k (table st)
                 = take 1 (select k t0 ++ select k (omap dec xs))).
  { intros k. rewrite Ht. by apply insert_all_select. }
  split_and!; [done|done| |done|].
  - rewrite Ht. by apply insert_all_NoDup.
  - intros pre x1 mid x2 post a b -> Ha Hb Hab Hnew Hfirst. split.
    + rewrite Hsel, (select_absent _ _ Hnew), omap_app. simpl.
      rewrite Ha, select_app.
      assert (Hpre : select (key a) (omap dec pre) = []).
      { apply select_absent. intros (c & Hk & Hc')%list_elem_of_fmap.
        apply list_elem_of_omap in Hc' as (x & Hx & Hdx).
        by apply (Hfirst x c). }
      rewrite Hpre. unfold select. simpl. by rewrite Z.eqb_refl.
    + rewrite Hc, !omap_app. simpl. rewrite Ha, omap_app. simpl.
      rewrite Hb. rewrite !length_app. simpl. rewrite length_app. simpl.
      unfold omap. lia.
Qed.

End FirstKept.

Lemma omap_ext {A B} (f g : A -> option B) (l : list A) :
  (forall x, f x = g x) -> omap f l = omap g l.
Proof.
  intros Hfg. induction l as [|x l IH]; [done|].
  simpl. rewrite Hfg. unfold omap in IH. by rewrite IH.
Qed.

Lemma import_items_executed clock now rows t0 :
  executed (import_items clock rows t0) = omap (item_of_row now) rows.
Proof.
  unfold import_items.
  rewrite (for_executed _ (fun x => item_of_row (fst x) (snd x))).
  - simpl. rewrite omap_items_clock. apply omap_ext.
    intros r. apply item_of_row_clock.
  - intros [now' r] st. apply import_items_row_spec.
Qed.

Lemma source_of_row_titled_b id r :
  source_of_row id r
  = if titled_b r && sqlite_int id
    then Some (Source.mk id (source_title r)
                 (match r !! 0 with
                  | Some f => if truthy f then Some f else None
                  | None => None
                  end)
                 (r !! 1))
    else None.
Proof.
  unfold source_of_row, titled_b.
  destruct (Nat.ltb_spec (length r) 2) as [Hlt|Hge].
  - replace (2 <=? length r) with false by (symmetry; apply Nat.leb_gt; lia).
    done.
  - replace (2 <=? length r) with true by (symmetry; apply Nat.leb_le; lia).
    simpl. by destruct (truthy (source_title r)), (sqlite_int id).
Qed.

Lemma import_sources_executed rows t0 :
  (1000 + Z.of_nat (length rows) <= 2 ^ 63)%Z ->
  executed (import_sources rows t0)
  = omap (fun x : Z * row => source_of_row (fst x) (snd x))
      (keyed_sources rows).
Proof.
  intros Hbound. unfold import_sources, keyed_sources.
  destruct (for_foldl import_sources_row rows (start t0 1000)) as [-> _];
    [apply settles_no_raise, import_sources_row_settles|].
  set (dec := fun x : Z * row => source_of_row (fst x) (snd x)).
  set (f := fun i (r : row) => ((1000 + Z.of_nat i)%Z, r)).
  enough (Hinv : length rows <= length rows ->
    source_id (foldl (fun st x => snd (import_sources_row x st))
                 (start t0 1000) rows)
    = (1000 + Z.of_nat (length (List.filter titled_b
                                  (take (length rows) rows))))%Z /\
    executed (foldl (fun st x => snd (import_sources_row x st))
                (start t0 1000) rows)
    = omap dec (imap f (List.filter titled_b (take (length rows) rows)))).
  { destruct Hinv as [_ ->]; [done|]. by rewrite firstn_all. }
  apply (foldl_invariant (fun (n : nat) st =>
    n <= length rows ->
    source_id st
    = (1000 + Z.of_nat (length (List.filter titled_b (take n rows))))%Z /\
    executed st = omap dec (imap f (List.filter titled_b (take n rows)))));
    [done|].
  intros n st r Hr IH Hle. simpl.
  destruct IH as [Hid He]; [lia|].
  pose proof (List.filter_length_le titled_b (take n rows)) as Hfl.
  rewrite length_take in Hfl.
  rewrite (take_S_r _ _ _ Hr), List.filter_app, imap_app, omap_app.
  destruct (import_sources_row_spec r st) as (o & st' & -> & _ & Hs).
  simpl snd. rewrite source_of_row_titled_b in Hs. simpl List.filter.
  destruct (titled_b r) eqn:Ht.
  - assert (Hok : sqlite_int (source_id st) = true).
    { unfold sqlite_int. rewrite Hid. apply andb_true_iff.
      split; [apply Z.leb_le|apply Z.ltb_lt]; lia. }
    rewrite Hok in Hs. simpl in Hs.
    destruct Hs as [(_ & -> & _) ->]. rewrite length_app. simpl.
    subst dec f. simpl. rewrite Nat.add_0_r, <- Hid.
    rewrite source_of_row_titled_b, Ht, Hok. simpl.
    rewrite He. split; [lia|done].
  - simpl in Hs. destruct Hs as (_ & -> & _ & _ & ->).
    simpl. rewrite !app_nil_r. by split.
Qed.

(** C4.  Whatever rows are read, and whatever table without duplicate
    identities the import starts from, the [INSERT OR IGNORE] statements
    an importer runs are those of the accepted rows of the input, in the
    order of the input, and [count] is their number, duplicates
    included; the table ends without duplicate identities, and the rows
    it holds of any identity are the first of that identity among the
    rows already there followed by the accepted rows.  So of two accepted
    rows that share an identity new to the table, the first accepted row
    of that identity is the one row stored, with its own values, and
    both are counted.  The accepted rows and their tuples are those of
    [item_of_row], [link_of_row], [cliche_of_row], [name_of_row] and
    [term_of_row]; a Source row takes the key the counter has reached,
    so that no two rows of one input share an identity. *)
Theorem duplicate_identity_keeps_first :
  (forall clock now rows t0, NoDup (key <$> t0) ->
     first_kept (item_of_row now) rows t0 (import_items clock rows t0) /\
     (count (import_items clock rows t0)
      + errors (import_items clock rows t0) = Z.of_nat (length rows))%Z) /\
  (forall rows t0, NoDup (key <$> t0) ->
     first_kept link_of_row rows t0 (import_links rows t0) /\
     (count (import_links rows t0) + errors (import_links rows t0)
      = Z.of_nat (length rows))%Z) /\
  (forall rows t0, NoDup (key <$> t0) ->
     first_kept cliche_of_row rows t0 (import_cliches rows t0) /\
     (count (import_cliches rows t0) + errors (import_cliches rows t0)
      = Z.of_nat (length rows))%Z) /\
  (forall rows t0, NoDup (key <$> t0) ->
     first_kept name_of_row rows t0 (import_names rows t0) /\
     (count (import_names rows t0) + errors (import_names rows t0)
      = Z.of_nat (length rows))%Z) /\
  (forall rows t0, NoDup (key <$> t0) ->
     first_kept term_of_row rows t0 (import_literary_terms rows t0) /\
     (count (import_literary_terms rows t0)
      + errors (import_literary_terms rows t0)
      = Z.of_nat (length rows))%Z) /\
  (forall rows t0, NoDup (key <$> t0) ->
     (1000 + Z.of_nat (length rows) <= 2 ^ 63)%Z ->
     first_kept (fun x : Z * row => source_of_row (fst x) (snd x))
       (keyed_sources rows) t0 (import_sources rows t0) /\
     (count (import_sources rows t0) + errors (import_sources rows t0)
      = Z.of_nat (length rows))%Z).
Proof.
  split_and!.
  - intros clock now rows t0 Ht0.
    pose proof (settles_replayed _ (imap (fun i r => (clock i, r)) rows)
                  t0 0%Z import_items_row_settles) as Hr.
    rewrite length_imap in Hr. split; [|apply Hr].
    eapply first_kept_intro; [done|exact Hr|].
    apply import_items_executed.
  - intros rows t0 Ht0.
    pose proof (settles_replayed _ rows t0 0%Z import_links_row_settles)
      as Hr.
    split; [|apply Hr]. eapply first_kept_intro; [done|exact Hr|].
    apply (for_executed _ link_of_row). intros r st.
    apply import_links_row_spec.
  - intros rows t0 Ht0.
    pose proof (settles_replayed _ rows t0 0%Z import_cliches_row_settles)
      as Hr.
    split; [|apply Hr]. eapply first_kept_intro; [done|exact Hr|].
    apply (for_executed _ cliche_of_row). intros r st.
    apply import_cliches_row_spec.
  - intros rows t0 Ht0.
    pose proof (settles_replayed _ rows t0 0%Z import_names_row_settles)
      as Hr.
    split; [|apply Hr]. eapply first_kept_intro; [done|exact Hr|].
    apply (for_executed _ name_of_row). intros r st.
    apply import_names_row_spec.
  - intros rows t0 Ht0.
    pose proof (settles_replayed _ rows t0 0%Z
                  import_literary_terms_row_settles) as Hr.
    split; [|apply Hr]. eapply first_kept_intro; [done|exact Hr|].
    apply (for_executed _ term_of_row). intros r st.
    apply import_literary_terms_row_spec.
  - intros rows t0 Ht0 Hbound.
    pose proof (settles_replayed _ rows t0 1000%Z import_sources_row_settles)
      as Hr.
    split; [|apply Hr]. eapply first_kept_intro; [done|exact Hr|].
    by apply import_sources_executed.
Qed.

Lemma duplicate_identity_keeps_first_witness :
  let rows := [[lit "7"; lit "first"]; [lit "x"]; [lit "7"; lit "second"]] in
  let st := import_cliches rows [] in
  select 7 (table st) = [Cliche.mk 7 (lit "first") None] /\
  count st = 2%Z /\ errors st = 1%Z.
Proof.
  intros rows st.
  destruct (proj1 (proj2 (proj2 duplicate_identity_keeps_first)) rows [])
    as [(He & Hc & Hnd & Hsel & Htwo) Hn]; [constructor|].
  fold st in He, Hc, Hnd, Hsel, Htwo, Hn. clearbody st.
  destruct (Htwo [] [lit "7"; lit "first"] [[lit "x"]]
              [lit "7"; lit "second"] []
              (Cliche.mk 7 (lit "first") None)
              (Cliche.mk 7 (lit "second") None)) as [Hs Hc2].
  - reflexivity.
  - vm_compute. reflexivity.
  - vm_compute. reflexivity.
  - reflexivity.
  - simpl. apply not_elem_of_nil.
  - intros x c Hx. by apply elem_of_nil in Hx.
  - split_and!; [exact Hs|rewrite Hc2; reflexivity|].
    rewrite Hc2 in Hn. simpl in Hn. lia.
Defined.

(** ** Exceptions and repeated identities *)


Section Stored.
Context {R X : Type} `{Keyed R}.

Lemma insert_all_full (rs t : list R) :
  length (foldl (fun t r => insert_or_ignore r t) t rs)
  = length t + length rs ->
  foldl (fun t r => insert_or_ignore r t) t rs = t ++ rs.
Proof.
  revert t. induction rs as [|r rs IH]; intros t Hlen; simpl in *.
  - by rewrite app_nil_r.
  - pose proof (insert_all_length rs (insert_or_ignore r t)) as Hle.
    unfold insert_or_ignore in *. destruct (has_key (key r) t).
    + lia.
    + rewrite IH; [by rewrite <- app_assoc|].
      rewrite Hlen, length_app. simpl. lia.
Qed.

Lemma settles_stored_unless_repeated (body : X -> stmt R unit) xs t0 id :
  settles body -> NoDup (key <$> t0) ->
  stored_unless_repeated t0 (snd (for_ xs body (start t0 id))).
Proof.
  intros Hb Ht0.
  set (st := snd (for_ xs body (start t0 id))).
  destruct (settles_replayed body xs t0 id Hb) as (Ht & Hc & _).
  fold st in Ht, Hc.
  assert (Hiff : table st = t0 ++ executed st <->
                 NoDup (key <$> (t0 ++ executed st))).
  { split.
    - intros <-. rewrite Ht. by apply insert_all_NoDup.
    - intros Hnd. rewrite Ht. by apply insert_all_fresh. }
  split_and!; [done| |].
  - intros Hnd. apply Hiff in Hnd. rewrite Hnd, length_app. lia.
  - intros Hnd. pose proof (insert_all_length (executed st) t0) as Hle.
    rewrite <- Ht in Hle.
    destruct (decide (length (table st) = length t0 + length (executed st)))
      as [Heq|Hne]; [|lia].
    exfalso. apply Hnd, Hiff. rewrite Ht. apply insert_all_full.
    by rewrite <- Ht.
Qed.

End Stored.

(** Into a table without duplicate identities, every accepted row is
    stored exactly when no identity repeats among the rows of the table
    and the accepted rows, and then the table grows by [count] rows;
    otherwise it grows by fewer rows than [count] says were imported. *)
Theorem accepted_rows_stored_unless_repeated :
  (forall clock rows t0, NoDup (key <$> t0) ->
     stored_unless_repeated t0 (import_items clock rows t0)) /\
  (forall rows t0, NoDup (key <$> t0) ->
     stored_unless_repeated t0 (import_links rows t0)) /\
  (forall rows t0, NoDup (key <$> t0) ->
     stored_unless_repeated t0 (import_cliches rows t0)) /\
  (forall rows t0, NoDup (key <$> t0) ->
     stored_unless_repeated t0 (import_names rows t0)) /\
  (forall rows t0, NoDup (key <$> t0) ->
     stored_unless_repeated t0 (import_literary_terms rows t0)) /\
  (forall rows t0, NoDup (key <$> t0) ->
     stored_unless_repeated t0 (import_sources rows t0)).
Proof.
  split_and!; intros; apply settles_stored_unless_repeated; try done.
  - apply import_items_row_settles.
  - apply import_links_row_settles.
  - apply import_cliches_row_settles.
  - apply import_names_row_settles.
  - apply import_literary_terms_row_settles.
  - apply import_sources_row_settles.
Qed.

Lemma accepted_rows_stored_unless_repeated_witness :
  let rows := [[lit "7"; lit "first"]; [lit "7"; lit "second"]] in
  let st := import_cliches rows [] in
  (Z.of_nat (length (table st))
   < Z.of_nat (length (@nil Cliche.t)) + count st)%Z.
Proof.
  intros rows st.
  apply (proj1 (proj2 (proj2 accepted_rows_stored_unless_repeated)) rows []).
  - constructor.
  - vm_compute. intros Hnd. apply NoDup_cons in Hnd as [Hin _].
    apply Hin. left.
Defined.
